(** * Krishna: the text-to-speech facade and its language router

    A shallow embedding of [src/audio/text_to_speech.py] (class
    [TextToSpeech]) and the properties of its language auto-detection,
    language validation, error handling and temporary-file handling.

    Conventions of the embedding:
    - a Python [str] that is inspected character by character is the list
      of its code points ([list Z]); language codes and file names, which
      are only compared for equality, are [string]s;
    - Python floats are IEEE binary64 values, modelled exactly by the
      [spec_float] type of the Standard Library;
    - a method is a function of a state and exception monad over [State]
      (the instance attributes, the heap of [dict] objects, the file
      system and the log of external calls);
    - the behaviour of the outside world (network, audio device, file
      system errors) is a parameter, the record [Env]. *)

From Stdlib Require Import ZArith List Lia Bool.
From Stdlib Require Import Floats.SpecFloat.
From stdpp Require Import gmap strings list sorting.

Open Scope Z_scope.

(** ** Python floats *)

Module PyFloat.

Definition prec : Z := 53.
Definition emax : Z := 1024.
Definition bemin : Z := 3 - emax - prec.

(** [float(n)] for a Python int: the correctly rounded double. *)
Definition float_of_int (n : Z) : spec_float :=
  binary_normalize prec emax n 0 false.

(** The literal [0.3], i.e. the double 0x1.3333333333333p-2. *)
Definition c03 : spec_float := S754_finite false 5404319552844595 (-54).

(** The literal [0.2], i.e. the double 0x1.999999999999ap-3. *)
Definition c02 : spec_float := S754_finite false 7205759403792794 (-55).

(** [n * x] for an int [n] and a float [x]: the int is converted, then
    the doubles are multiplied. *)
Definition int_mul_float (n : Z) (x : spec_float) : spec_float :=
  SFmul prec emax (float_of_int n) x.

(** [i > f] for an int [i] and a float [f]: CPython compares the two
    exactly, without converting the int. *)
Definition int_gt_float (i : Z) (f : spec_float) : bool :=
  match f with
  | S754_nan => false
  | S754_infinity s => s
  | S754_zero _ => 0 <? i
  | S754_finite s m e =>
      let v := if s then Zneg m else Zpos m in
      if 0 <=? e then v * 2 ^ e <? i else v <? i * 2 ^ (- e)
  end.

(** [x > y] on floats. *)
Definition float_gt (x y : spec_float) : bool := SFltb y x.

(** The shift record that locates the rational [X / D] between two
    consecutive integers (used to describe rounding). *)
Definition rec_of (X D : Z) : shr_record :=
  {| shr_m := X / D;
     shr_r := D <=? 2 * (X mod D);
     shr_s := negb (X mod D =? 0) && negb (2 * (X mod D) =? D) |}.

(** Round-to-nearest-even of the rational [X / D], as an integer. *)
Definition rnd (X D : Z) : Z :=
  round_nearest_even (shr_m (rec_of X D)) (loc_of_shr_record (rec_of X D)).

End PyFloat.

Import PyFloat.

(** ** Exceptions and results *)

(** The Python exceptions that can arise; all are subclasses of
    [Exception], so an [except Exception] clause catches each of them
    ([KeyboardInterrupt] and [SystemExit], which are not, are outside the
    model). *)
Inductive exn : Type :=
| ZeroDivisionError
| AssertionError
| ValueError
| gTTSError
| OSError
| PermissionError
| FileNotFoundError
| pygame_error.

Inductive Res (A : Type) : Type :=
| Ok (a : A)
| Raise (e : exn).
Arguments Ok {A} a.
Arguments Raise {A} e.

Definition bindR {A B} (r : Res A) (k : A -> Res B) : Res B :=
  match r with
  | Ok a => k a
  | Raise e => Raise e
  end.

(** [a / b] on ints (true division): [ZeroDivisionError] when [b] is zero,
    otherwise the quotient of the two doubles. *)
Definition py_truediv (a b : Z) : Res spec_float :=
  if b =? 0 then Raise ZeroDivisionError
  else Ok (SFdiv prec emax (float_of_int a) (float_of_int b)).

(** ** Python strings *)

Module PyStr.

(** A [str] as the list of its code points. *)
Abbreviation str := (list Z).

Definition len {A} (l : list A) : Z := Z.of_nat (length l).

(** A literal written in ASCII. *)
Definition lit (s : string) : str :=
  map (fun a => Z.of_nat (Ascii.nat_of_ascii a)) (String.list_ascii_of_string s).

(** [c.isspace()]: the code points CPython treats as whitespace. *)
Definition isspace (c : Z) : bool :=
  ((9 <=? c) && (c <=? 13)) || ((28 <=? c) && (c <=? 32))
  || (c =? 133) || (c =? 160) || (c =? 5760)
  || ((8192 <=? c) && (c <=? 8202))
  || (c =? 8232) || (c =? 8233) || (c =? 8239) || (c =? 8287) || (c =? 12288).

(** ['\u0900' <= char <= '\u097F'] *)
Definition is_devanagari (c : Z) : bool := (2304 <=? c) && (c <=? 2431).

Definition lower_ascii (c : Z) : Z :=
  if (65 <=? c) && (c <=? 90) then c + 32 else c.

(** Code points on which [str.lower] is the ASCII case shift: ASCII
    itself, and the caseless Devanagari block and whitespace. *)
Definition plain_char (c : Z) : bool :=
  (c <? 128) || is_devanagari c || isspace c.

(** [s.split()] with no argument: the maximal runs of non-whitespace;
    [cur] is the run being read, in reverse. *)
Fixpoint split_from (cur : str) (s : str) : list str :=
  match s with
  | [] => match cur with [] => [] | _ => [rev cur] end
  | c :: s' =>
      if isspace c
      then match cur with
           | [] => split_from [] s'
           | _ => rev cur :: split_from [] s'
           end
      else split_from (c :: cur) s'
  end.

Definition split (s : str) : list str := split_from [] s.

End PyStr.

Import PyStr.

(** ** The outside world *)

(** The external calls the class makes. *)
Inductive Call : Type :=
| mixer_init
| gTTS_init (text : str) (lang : string) (slow : bool)
| gTTS_save (text : str) (lang : string) (slow : bool) (filename : string)
| mkstemp
| unlink (filename : string)
| music_load (filename : string)
| music_play
| music_get_busy
| Sound_init (filename : string)
| Sound_play
| mixer_get_busy
| sleep.

(** The diagnostics the class prints. *)
Inductive Msg : Type :=
| msg_audio_init_failed (e : exn)
| msg_not_supported (language : string)
| msg_error_generating (e : exn)
| msg_saved_temporarily
| msg_cleanup_failed (e : exn)
| msg_error_saving (e : exn)
| msg_playback_unavailable
| msg_file_not_found (filename : string)
| msg_error_playing (e : exn)
| msg_alternative_failed (e : exn).

Inductive Event : Type :=
| Called (c : Call)
| TempCreated (filename : string)
| Printed (m : Msg).

(** What the outside world does. Every answer may depend on everything
    that happened before (the log, newest event first). *)
Record Env : Type := {
  (** [str.lower] on text that has a character outside [plain_char] *)
  unicode_lower : str -> str;
  (** the exception an external call ends with, if any *)
  raises : list Event -> Call -> option exn;
  (** the name [tempfile.NamedTemporaryFile] picks *)
  tmp_name : list Event -> string;
  (** whether a failing [tts.save] had already created its file *)
  save_leaves_file : list Event -> bool;
  (** how many times [get_busy()] answers [True] before playback ends *)
  busy_polls : list Event -> nat
}.

(** ** The instance and the state *)

Record TextToSpeech : Type := {
  supported_languages : nat;          (* address of the dict on the heap *)
  hinglish_keywords : list str;
  current_language : string;
  slow_speech : bool;
  _audio_initialized : bool
}.

Record State : Type := {
  this : TextToSpeech;
  heap : list (gmap string string);   (* the dict objects, by address *)
  files : gset string;                (* the paths that exist *)
  log : list Event                    (* newest first *)
}.

Definition M (A : Type) : Type := State -> Res A * State.

Definition ret {A} (a : A) : M A := fun s => (Ok a, s).

Definition bind {A B} (m : M A) (k : A -> M B) : M B :=
  fun s => match m s with
           | (Ok a, s') => k a s'
           | (Raise e, s') => (Raise e, s')
           end.

Notation "'let*' x := m 'in' k" := (bind m (fun x => k))
  (at level 10, x binder, m at level 100, k at level 200).

Definition lift {A} (r : Res A) : M A := fun s => (r, s).

(** [try: body except Exception as e: handler e] *)
Definition try_except {A} (body : M A) (handler : exn -> M A) : M A :=
  fun s => match body s with
           | (Ok a, s') => (Ok a, s')
           | (Raise e, s') => handler e s'
           end.

(** [try: body finally: final] *)
Definition try_finally {A} (body : M A) (final : M unit) : M A :=
  fun s => let (r, s1) := body s in
           match final s1 with
           | (Ok _, s2) => (r, s2)
           | (Raise e, s2) => (Raise e, s2)
           end.

Definition get_self : M TextToSpeech := fun s => (Ok (this s), s).

Definition put_self (t : TextToSpeech) : M unit :=
  fun s => (Ok tt, {| this := t; heap := heap s; files := files s; log := log s |}).

Definition add_log (ev : Event) (s : State) : State :=
  {| this := this s; heap := heap s; files := files s; log := ev :: log s |}.

Definition add_file (f : string) (s : State) : State :=
  {| this := this s; heap := heap s; files := {[f]} ∪ files s; log := log s |}.

Definition remove_file (f : string) (s : State) : State :=
  {| this := this s; heap := heap s; files := files s ∖ {[f]}; log := log s |}.

Definition set_heap (h : list (gmap string string)) (s : State) : State :=
  {| this := this s; heap := h; files := files s; log := log s |}.

Definition print (m : Msg) : M unit := fun s => (Ok tt, add_log (Printed m) s).

(** *** Dict objects *)

Definition the_dict (a : nat) (s : State) : gmap string string :=
  default ∅ (heap s !! a).

(** [k in d] *)
Definition dict_contains (a : nat) (k : string) : M bool :=
  fun s => (Ok (bool_decide (is_Some (the_dict a s !! k))), s).

(** [d.copy()]: a new object with the same items. *)
Definition dict_copy (a : nat) : M nat :=
  fun s => (Ok (length (heap s)), set_heap (heap s ++ [the_dict a s]) s).

(** Allocation of a dict literal. *)
Definition dict_new (d : gmap string string) : M nat :=
  fun s => (Ok (length (heap s)), set_heap (heap s ++ [d]) s).

(** What a caller can do to a dict it holds. *)
Inductive DictOp : Type :=
| SetItem (k v : string)    (* d[k] = v *)
| DelItem (k : string)      (* d.pop(k, None) *)
| Clear.                    (* d.clear() *)

Definition dict_apply (a : nat) (op : DictOp) : M unit :=
  fun s =>
    let d := the_dict a s in
    let d' := match op with
              | SetItem k v => <[k := v]> d
              | DelItem k => delete k d
              | Clear => ∅
              end in
    (Ok tt, set_heap (<[a := d']> (heap s)) s).

(** ** The class [TextToSpeech] *)

Section Methods.

Variable E : Env.

(** *** External calls *)

(** An external call that only succeeds or raises. *)
Definition call (c : Call) : M unit :=
  fun s =>
    let s' := add_log (Called c) s in
    match raises E (log s) c with
    | Some e => (Raise e, s')
    | None => (Ok tt, s')
    end.

(** [tts.save(filename)]: fetches the audio and writes the file. *)
Definition tts_save (text : str) (lang : string) (slow : bool)
           (filename : string) : M unit :=
  fun s =>
    let c := gTTS_save text lang slow filename in
    let s' := add_log (Called c) s in
    match raises E (log s) c with
    | None => (Ok tt, add_file filename s')
    | Some e =>
        (Raise e, if save_leaves_file E (log s) then add_file filename s' else s')
    end.

(** [tempfile.NamedTemporaryFile(delete=False, suffix='.mp3')], taking
    its [.name] and closing it. *)
Definition NamedTemporaryFile : M string :=
  fun s =>
    let s' := add_log (Called mkstemp) s in
    match raises E (log s) mkstemp with
    | Some e => (Raise e, s')
    | None =>
        let f := tmp_name E (log s) in
        (Ok f, add_log (TempCreated f) (add_file f s'))
    end.

(** [os.path.exists(filename)] *)
Definition path_exists (filename : string) : M bool :=
  fun s => (Ok (bool_decide (filename ∈ files s)), s).

(** [os.unlink(filename)] *)
Definition os_unlink (filename : string) : M unit :=
  fun s =>
    let s' := add_log (Called (unlink filename)) s in
    match raises E (log s) (unlink filename) with
    | Some e => (Raise e, s')
    | None =>
        if bool_decide (filename ∈ files s)
        then (Ok tt, remove_file filename s')
        else (Raise FileNotFoundError, s')
    end.

(** [while get_busy(): time.sleep(0.1)], for a playback that lasts [n]
    more polls. *)
Fixpoint wait_polls (get_busy : Call) (n : nat) : M unit :=
  match n with
  | O => call get_busy
  | S k => let* _ := call get_busy in
           let* _ := call sleep in
           wait_polls get_busy k
  end.

Definition wait_while_busy (get_busy : Call) : M unit :=
  fun s => wait_polls get_busy (busy_polls E (log s)) s.

(** *** The language router *)

(** [text.lower()] *)
Definition lower (text : str) : str :=
  if forallb plain_char text then map lower_ascii text
  else unicode_lower E text.

Definition detect_hinglish (self : TextToSpeech) (text : str) : Res bool :=
  let text_lower := lower text in
  let words := split text_lower in
  let hinglish_count :=
    fold_left
      (fun count word =>
         if bool_decide (word ∈ hinglish_keywords self) then count + 1 else count)
      words 0 in
  if 0 <? len words
  then bindR (py_truediv hinglish_count (len words))
             (fun ratio => if float_gt ratio c02 then Ok true else Ok false)
  else Ok false.

Definition auto_detect_language (self : TextToSpeech) (text : str) : Res string :=
  let devanagari_count :=
    fold_left Z.add (map (fun _ => 1) (filter (fun char => Is_true (is_devanagari char)) text)) 0 in
  if int_gt_float devanagari_count (int_mul_float (len text) c03)
  then Ok "hi"%string
  else bindR (detect_hinglish self text)
             (fun b => if b then Ok "hi"%string else Ok (current_language self)).

(** *** Settings *)

Definition get_supported_languages : M nat :=
  let* self := get_self in
  dict_copy (supported_languages self).

Definition set_language (language_code : string) : M bool :=
  let* self := get_self in
  let* known := dict_contains (supported_languages self) language_code in
  if known
  then let* _ := put_self {| supported_languages := supported_languages self;
                             hinglish_keywords := hinglish_keywords self;
                             current_language := language_code;
                             slow_speech := slow_speech self;
                             _audio_initialized := _audio_initialized self |} in
       ret true
  else ret false.

Definition set_speed (slow : bool) : M unit :=
  let* self := get_self in
  put_self {| supported_languages := supported_languages self;
              hinglish_keywords := hinglish_keywords self;
              current_language := current_language self;
              slow_speech := slow;
              _audio_initialized := _audio_initialized self |}.

(** *** Playback and synthesis *)

Definition _play_audio_file (filename : string) : M unit :=
  let* self := get_self in
  if negb (_audio_initialized self)
  then print msg_playback_unavailable
  else
    try_except
      (let* found := path_exists filename in
       if negb found
       then print (msg_file_not_found filename)
       else let* _ := call (music_load filename) in
            let* _ := call music_play in
            wait_while_busy music_get_busy)
      (fun e =>
         let* _ := print (msg_error_playing e) in
         try_except
           (let* _ := call (Sound_init filename) in
            let* _ := call Sound_play in
            wait_while_busy mixer_get_busy)
           (fun e2 => print (msg_alternative_failed e2))).

Definition _generate_and_play (text : str) (language : string) (slow : bool)
  : M bool :=
  try_except
    (let* self := get_self in
     let* known := dict_contains (supported_languages self) language in
     if negb known
     then let* _ := print (msg_not_supported language) in ret false
     else
       let* _ := call (gTTS_init text language slow) in
       let* tmp_filename := NamedTemporaryFile in
       let* _ :=
         try_finally
           (let* _ := tts_save text language slow tmp_filename in
            if _audio_initialized self
            then _play_audio_file tmp_filename
            else print msg_saved_temporarily)
           (try_except
              (let* found := path_exists tmp_filename in
               if found then os_unlink tmp_filename else ret tt)
              (fun cleanup_error => print (msg_cleanup_failed cleanup_error))) in
       ret true)
    (fun e => let* _ := print (msg_error_generating e) in ret false).

Definition _generate_audio (text : str) (language : string) (slow : bool)
           (filename : string) : M bool :=
  try_except
    (let* self := get_self in
     let* known := dict_contains (supported_languages self) language in
     if negb known
     then let* _ := print (msg_not_supported language) in ret false
     else
       let* _ := call (gTTS_init text language slow) in
       let* _ := tts_save text language slow filename in
       ret true)
    (fun e => let* _ := print (msg_error_saving e) in ret false).

(** [language or default] for an [Optional[str]]: [None] and the empty
    string are both falsy. *)
Definition or_default (language : option string) (default : string) : string :=
  match language with
  | None => default
  | Some EmptyString => default
  | Some c => c
  end.

(** [slow if slow is not None else default] *)
Definition if_not_None (slow : option bool) (default : bool) : bool :=
  match slow with
  | Some b => b
  | None => default
  end.

Definition speak (text : str) (language : option string) (slow : option bool)
  : M bool :=
  let* self := get_self in
  let lang := or_default language (current_language self) in
  let speed := if_not_None slow (slow_speech self) in
  _generate_and_play text lang speed.

Definition save (text : str) (filename : string) (language : option string)
           (slow : option bool) : M bool :=
  let* self := get_self in
  let lang := or_default language (current_language self) in
  let speed := if_not_None slow (slow_speech self) in
  _generate_audio text lang speed filename.

Definition speak_and_save (text : str) (filename : string)
           (language : option string) (slow : option bool) : M bool :=
  let* self := get_self in
  let lang := or_default language (current_language self) in
  let speed := if_not_None slow (slow_speech self) in
  let* ok := _generate_audio text lang speed filename in
  if ok
  then let* _ := (if _audio_initialized self
                  then _play_audio_file filename else ret tt) in
       ret true
  else ret false.

Definition speak_hinglish (text : str) (slow : bool) (auto_detect : bool)
  : M bool :=
  let* self := get_self in
  let* lang := (if auto_detect
                then lift (auto_detect_language self text)
                else ret "hi"%string) in
  speak text (Some lang) (Some slow).

(** *** Construction *)

Definition languages_table : gmap string string :=
  list_to_map
    [("en", "English"); ("es", "Spanish"); ("fr", "French"); ("de", "German");
     ("it", "Italian"); ("pt", "Portuguese"); ("ru", "Russian");
     ("ja", "Japanese"); ("ko", "Korean"); ("zh", "Chinese (Mandarin)");
     ("ar", "Arabic"); ("hi", "Hindi"); ("bn", "Bengali"); ("ur", "Urdu");
     ("tr", "Turkish"); ("pl", "Polish"); ("nl", "Dutch"); ("sv", "Swedish");
     ("da", "Danish"); ("no", "Norwegian"); ("fi", "Finnish"); ("cs", "Czech");
     ("hu", "Hungarian"); ("ro", "Romanian"); ("sk", "Slovak");
     ("bg", "Bulgarian"); ("hr", "Croatian"); ("sr", "Serbian");
     ("uk", "Ukrainian"); ("el", "Greek"); ("he", "Hebrew"); ("th", "Thai");
     ("vi", "Vietnamese"); ("id", "Indonesian"); ("ms", "Malay");
     ("tl", "Filipino"); ("sw", "Swahili"); ("af", "Afrikaans");
     ("ta", "Tamil"); ("te", "Telugu"); ("ml", "Malayalam"); ("kn", "Kannada");
     ("gu", "Gujarati"); ("pa", "Punjabi"); ("mr", "Marathi"); ("or", "Odia");
     ("as", "Assamese"); ("ne", "Nepali")]%string.

Definition keywords : list str :=
  map lit
    ["hai"; "hain"; "kar"; "kya"; "kaise"; "kahan"; "kab"; "kyun"; "kaun";
     "aur"; "main"; "hum"; "tum"; "aap"; "yeh"; "woh"; "iske"; "uske";
     "mera"; "tera"; "hamara"; "tumhara"; "apka"; "iska"; "uska";
     "karna"; "hona"; "jana"; "aana"; "lena"; "dena"; "dekha"; "suna";
     "accha"; "bura"; "bada"; "chota"; "naya"; "purana"; "thik"; "galat";
     "bahut"; "kam"; "zyada"; "sab"; "kuch"; "koi"; "sabko"; "kisiko"]%string.

Definition _init_audio : M unit :=
  let set_flag (b : bool) : M unit :=
    let* self := get_self in
    put_self {| supported_languages := supported_languages self;
                hinglish_keywords := hinglish_keywords self;
                current_language := current_language self;
                slow_speech := slow_speech self;
                _audio_initialized := b |} in
  try_except
    (let* _ := call mixer_init in set_flag true)
    (fun e => let* _ := print (msg_audio_init_failed e) in set_flag false).

Definition __init__ : M unit :=
  let* table := dict_new languages_table in
  let* _ := put_self {| supported_languages := table;
                        hinglish_keywords := keywords;
                        current_language := "en";
                        slow_speech := false;
                        _audio_initialized := false |} in
  _init_audio.

(** *** A session: a sequence of calls on one instance *)

Inductive Op : Type :=
| op_set_language (language_code : string)
| op_set_speed (slow : bool)
| op_get_supported_languages
| op_speak (text : str) (language : option string) (slow : option bool)
| op_save (text : str) (filename : string) (language : option string)
          (slow : option bool)
| op_speak_and_save (text : str) (filename : string)
                    (language : option string) (slow : option bool)
| op_speak_hinglish (text : str) (slow : bool) (auto_detect : bool).

(** The state an operation leaves behind (its result is dropped). *)
Definition step (s : State) (op : Op) : State :=
  match op with
  | op_set_language c => snd (set_language c s)
  | op_set_speed b => snd (set_speed b s)
  | op_get_supported_languages => snd (get_supported_languages s)
  | op_speak t l sl => snd (speak t l sl s)
  | op_save t f l sl => snd (save t f l sl s)
  | op_speak_and_save t f l sl => snd (speak_and_save t f l sl s)
  | op_speak_hinglish t sl a => snd (speak_hinglish t sl a s)
  end.

Definition run (ops : list Op) (s : State) : State := fold_left step ops s.

End Methods.

(** A process in which nothing has happened yet; [__init__] fills in the
    instance. *)
Definition blank : State :=
  {| this := {| supported_languages := 0%nat; hinglish_keywords := [];
                current_language := EmptyString; slow_speech := false;
                _audio_initialized := false |};
     heap := []; files := ∅; log := [] |}.

(** An outside world in which every call succeeds and playback ends at
    the first poll. *)
Definition calm : Env :=
  {| unicode_lower := fun s => s;
     raises := fun _ _ => None;
     tmp_name := fun _ => "/tmp/tmp0.mp3"%string;
     save_leaves_file := fun _ => true;
     busy_polls := fun _ => 0%nat |}.

(** The instance right after construction in a calm world. *)
Definition fresh : State := snd (__init__ calm blank).

(** The table the instance validates language codes against. *)
Definition table (s : State) : gmap string string :=
  the_dict (supported_languages (this s)) s.

(** The instance holds a dict that exists. *)
Definition well_formed (s : State) : Prop :=
  (supported_languages (this s) < length (heap s))%nat.

(** * Vocabulary of the properties *)

(** The number of characters of the Devanagari block in a text. *)
Definition devanagari_chars (text : str) : Z :=
  len (filter (fun c => Is_true (is_devanagari c)) text).

(** The number of tokens that are Hinglish keywords of the instance. *)
Definition keyword_tokens (self : TextToSpeech) (words : list str) : Z :=
  len (filter (fun w => w ∈ hinglish_keywords self) words).

(** The tokens [detect_hinglish] looks at. *)
Definition tokens (E : Env) (text : str) : list str := split (lower E text).

(** "कखग" followed by "abcdefg": three Devanagari characters out of ten. *)
Definition three_of_ten : str := [2325; 2326; 2327] ++ lit "abcdefg".
(** "नमस्ते दुनिया" *)
Definition namaste_duniya : str :=
  [2344; 2350; 2360; 2381; 2340; 2375; 32; 2342; 2369; 2344; 2367; 2351; 2366].

(** The state [s] with another file system and another log: what a call
    that leaves the instance and the heap alone can produce. *)
Definition with_world (fs : gset string) (l : list Event) (s : State) : State :=
  {| this := this s; heap := heap s; files := fs; log := l |}.

(** [m] leaves the instance and the heap alone, changes the files only
    as [R] allows, and every event it logs satisfies [P]. *)
Definition effect {A} (R : relation (gset string)) (P : Event -> Prop) (m : M A) : Prop :=
  forall s, exists r fs evs,
    m s = (r, with_world fs (evs ++ log s) s) /\ R (files s) fs /\ Forall P evs.

Definition any_files : relation (gset string) := fun _ _ => True.

(** [m] always returns a value. *)
Definition never_raises {A} (m : M A) : Prop :=
  forall s, exists a, fst (m s) = Ok a.

(** Events of the audio device and diagnostics. *)
Definition is_playback (ev : Event) : Prop :=
  match ev with
  | Called (music_load _) | Called music_play | Called music_get_busy
  | Called (Sound_init _) | Called Sound_play | Called mixer_get_busy
  | Called sleep | Printed _ => True
  | _ => False
  end.

(** Every synthesis request among the events is for [language]. *)
Definition synth_for (language : string) (ev : Event) : Prop :=
  forall text lang slow, ev = Called (gTTS_init text lang slow) -> lang = language.

(** [c] is a key of the table of the instance. *)
Definition supported (s : State) (c : string) : bool :=
  bool_decide (is_Some (table s !! c)).

(** The session default is a key of the table. *)
Definition valid_default (s : State) : Prop :=
  supported s (current_language (this s)) = true.

(** Every synthesis request among the events is for a key of the table. *)
Definition synth_supported (s : State) (ev : Event) : Prop :=
  forall text lang slow, ev = Called (gTTS_init text lang slow) -> supported s lang = true.

Definition no_exn (o : option exn) : bool :=
  match o with None => true | Some _ => false end.

(** The synthesis steps of [speak] all succeed: the [gTTS] constructor,
    the creation of the temporary file and [tts.save]. *)
Definition speak_synthesis_ok (E : Env) (text : str) (lang : string) (slow : bool)
           (s : State) : bool :=
  let l1 := Called (gTTS_init text lang slow) :: log s in
  let f := tmp_name E l1 in
  let l2 := TempCreated f :: Called mkstemp :: l1 in
  no_exn (raises E (log s) (gTTS_init text lang slow))
  && no_exn (raises E l1 mkstemp)
  && no_exn (raises E l2 (gTTS_save text lang slow f)).

(** The synthesis steps of [save] all succeed. *)
Definition save_synthesis_ok (E : Env) (text : str) (lang : string) (slow : bool)
           (filename : string) (s : State) : bool :=
  let l1 := Called (gTTS_init text lang slow) :: log s in
  no_exn (raises E (log s) (gTTS_init text lang slow))
  && no_exn (raises E l1 (gTTS_save text lang slow filename)).

(** The two halves of the guarded block of [_generate_and_play]. *)
Definition save_and_play (E : Env) (text : str) (language : string) (slow : bool)
           (self : TextToSpeech) (tmp_filename : string) : M unit :=
  let* _ := tts_save E text language slow tmp_filename in
  if _audio_initialized self
  then _play_audio_file E tmp_filename
  else print msg_saved_temporarily.

Definition cleanup (E : Env) (tmp_filename : string) : M unit :=
  try_except
    (let* found := path_exists tmp_filename in
     if found then os_unlink E tmp_filename else ret tt)
    (fun cleanup_error => print (msg_cleanup_failed cleanup_error)).

(** What a caller does to a dict it holds, one operation after another. *)
Definition mutate (a : nat) (ops : list DictOp) (s : State) : State :=
  fold_left (fun st op => snd (dict_apply a op st)) ops s.

(** An outside world whose audio device refuses every file. *)
Definition broken_audio : Env :=
  {| unicode_lower := fun s => s;
     raises := fun _ c => match c with
                          | music_load _ | Sound_init _ => Some pygame_error
                          | _ => None
                          end;
     tmp_name := fun _ => "/tmp/tmp0.mp3"%string;
     save_leaves_file := fun _ => true;
     busy_polls := fun _ => 0%nat |}.


Definition hello : str := lit "hello".

(** No temporary file is created among the events. *)
Definition not_temp (ev : Event) : Prop := forall g, ev <> TempCreated g.

(** What [_generate_and_play] does once the synthesis object exists. *)
Definition after_request (E : Env) (text : str) (language : string) (slow : bool)
           (self : TextToSpeech) : M bool :=
  let* tmp_filename := NamedTemporaryFile E in
  let* _ := try_finally (save_and_play E text language slow self tmp_filename)
                        (cleanup E tmp_filename) in
  ret true.

(** The instance right after construction in a given outside world. *)
Definition fresh_in (E : Env) : State := snd (__init__ E blank).

(** ** The rest of the class *)

(** The convenience methods: one fixed code each. *)
Definition speak_hindi (E : Env) (text : str) (slow : bool) : M bool :=
  speak E text (Some "hi"%string) (Some slow).
Definition speak_tamil (E : Env) (text : str) (slow : bool) : M bool :=
  speak E text (Some "ta"%string) (Some slow).
Definition speak_telugu (E : Env) (text : str) (slow : bool) : M bool :=
  speak E text (Some "te"%string) (Some slow).
Definition speak_gujarati (E : Env) (text : str) (slow : bool) : M bool :=
  speak E text (Some "gu"%string) (Some slow).
Definition speak_punjabi (E : Env) (text : str) (slow : bool) : M bool :=
  speak E text (Some "pa"%string) (Some slow).
Definition speak_marathi (E : Env) (text : str) (slow : bool) : M bool :=
  speak E text (Some "mr"%string) (Some slow).
Definition speak_english (E : Env) (text : str) (slow : bool) : M bool :=
  speak E text (Some "en"%string) (Some slow).
Definition speak_spanish (E : Env) (text : str) (slow : bool) : M bool :=
  speak E text (Some "es"%string) (Some slow).
Definition speak_french (E : Env) (text : str) (slow : bool) : M bool :=
  speak E text (Some "fr"%string) (Some slow).
Definition speak_german (E : Env) (text : str) (slow : bool) : M bool :=
  speak E text (Some "de"%string) (Some slow).
Definition speak_japanese (E : Env) (text : str) (slow : bool) : M bool :=
  speak E text (Some "ja"%string) (Some slow).
Definition speak_chinese (E : Env) (text : str) (slow : bool) : M bool :=
  speak E text (Some "zh"%string) (Some slow).

(** The convenience methods with the code each one passes. *)
Definition convenience_methods (E : Env)
  : list (string * (str -> bool -> M bool)) :=
  [("hi", speak_hindi E); ("ta", speak_tamil E); ("te", speak_telugu E);
   ("gu", speak_gujarati E); ("pa", speak_punjabi E); ("mr", speak_marathi E);
   ("en", speak_english E); ("es", speak_spanish E); ("fr", speak_french E);
   ("de", speak_german E); ("ja", speak_japanese E); ("zh", speak_chinese E)]%string.

(** Calls to the audio device. *)
Definition is_audio_call (c : Call) : Prop :=
  match c with
  | music_load _ | music_play | music_get_busy
  | Sound_init _ | Sound_play | mixer_get_busy | sleep => True
  | _ => False
  end.

(** Calls to the synthesis service. *)
Definition is_synthesis_call (c : Call) : Prop :=
  match c with
  | gTTS_init _ _ _ | gTTS_save _ _ _ _ => True
  | _ => False
  end.

(** An event of [save]: a call to the synthesis service or a diagnostic. *)
Definition synthesis_only (ev : Event) : Prop :=
  match ev with
  | Called c => is_synthesis_call c
  | TempCreated _ => False
  | Printed _ => True
  end.

(** An outside world without an audio device: [pygame.mixer.init] raises. *)
Definition no_mixer : Env :=
  {| unicode_lower := fun s => s;
     raises := fun _ c => match c with
                          | mixer_init => Some pygame_error
                          | _ => None
                          end;
     tmp_name := fun _ => "/tmp/tmp0.mp3"%string;
     save_leaves_file := fun _ => true;
     busy_polls := fun _ => 0%nat |}.

(** The only file that may have been added is [f]. *)
Definition grows_by (f : string) : relation (gset string) :=
  fun X Y => X ⊆ Y /\ Y ⊆ {[f]} ∪ X.

(** The two playback strategies of [_play_audio_file]. *)
Definition first_playback (E : Env) (filename : string) : M unit :=
  let* _ := call E (music_load filename) in
  let* _ := call E music_play in
  wait_while_busy E music_get_busy.

Definition second_playback (E : Env) (filename : string) : M unit :=
  let* _ := call E (Sound_init filename) in
  let* _ := call E Sound_play in
  wait_while_busy E mixer_get_busy.

(** What the first strategy does after loading the file. *)
Definition first_strategy (ev : Event) : Prop :=
  ev = Called music_play \/ ev = Called music_get_busy \/ ev = Called sleep.

(** What the second strategy does after loading the file, and its
    diagnostic. *)
Definition second_strategy (ev : Event) : Prop :=
  ev = Called Sound_play \/ ev = Called mixer_get_busy \/ ev = Called sleep
  \/ exists e, ev = Printed (msg_alternative_failed e).

(** *** [list_languages] *)

(** [x <= y] for two [(code, name)] tuples: by code, then by name. *)
Definition item_leb (x y : string * string) : bool :=
  if decide (fst x = fst y) then String.leb (snd x) (snd y)
  else String.leb (fst x) (fst y).

Definition item_le (x y : string * string) : Prop := Is_true (item_leb x y).

#[export] Instance item_le_dec : RelDecision item_le :=
  fun x y => Is_true_dec (item_leb x y).

(** [sorted(d.items())] *)
Definition sorted_items (d : gmap string string) : list (string * string) :=
  merge_sort item_le (map_to_list d).

Definition tab : string := String (Ascii.ascii_of_nat 9) EmptyString.

Definition newline : string := String (Ascii.ascii_of_nat 10) EmptyString.

(** [s * n] *)
Fixpoint times (s : string) (n : nat) : string :=
  match n with
  | O => EmptyString
  | S k => s ++ times s k
  end.

(** The three lines above the table. *)
Definition header : list string :=
  [newline ++ "=== Supported Languages ==="; "Code" ++ tab ++ "Language";
   times "-" 25]%string.

(** [f"{code}\t{name}"] *)
Definition line (item : string * string) : string :=
  (fst item ++ tab ++ snd item)%string.

(** [list_languages]: the strings it gives to [print], in order.  The
    method reads the table, changes nothing and returns [None]. *)
Definition list_languages (s : State) : list string :=
  header ++ map line (sorted_items (table s)) ++ [EmptyString].

(** Sample texts. *)
Definition HAI_kya : str := lit "HAI kya".
Definition hai_kya : str := lit "hai kya".
Definition dog_hai : str := lit "dog   hai".
Definition hai_dog : str := lit "hai dog".

(** * Facts about the double-precision arithmetic of the thresholds *)

Section FloatFacts.

Lemma digits2_pos_size p : digits2_pos p = Pos.size p.
Proof. induction p; simpl; congruence. Qed.

Lemma Zdigits2_pos_bounds p :
2 ^ (Zdigits2 (Zpos p) - 1) <= Zpos p < 2 ^ Zdigits2 (Zpos p).
Proof.
simpl. rewrite digits2_pos_size.
pose proof (Pos.size_gt p) as Hgt. pose proof (Pos.size_le p) as Hle.
assert (Hpow : forall q, Zpos (2 ^ q) = 2 ^ Zpos q).
{ intros q. rewrite Pos2Z.inj_pow. reflexivity. }
split.
- assert (H2 : 2 ^ Zpos (Pos.size p) = 2 * 2 ^ (Zpos (Pos.size p) - 1)).
  { rewrite <- Z.pow_succ_r by lia. f_equal. lia. }
  rewrite <- Hpow in H2. lia.
- rewrite <- Hpow. lia.
Qed.

Lemma Zdigits2_unique m d :
0 < d -> 2 ^ (d - 1) <= m < 2 ^ d -> Zdigits2 m = d.
Proof.
intros Hd [Hlo Hhi].
assert (0 < m) by (pose proof (Z.pow_pos_nonneg 2 (d - 1)); lia).
destruct m as [|p|p]; try lia.
pose proof (Zdigits2_pos_bounds p) as [H1 H2].
set (k := Zdigits2 (Zpos p)) in *.
assert (0 < k) by (unfold k; simpl; lia).
destruct (Z.lt_trichotomy k d) as [Hlt|[Heq|Hgt]]; [|exact Heq|].
- assert (2 ^ k <= 2 ^ (d - 1)) by (apply Z.pow_le_mono_r; lia). lia.
- assert (2 ^ d <= 2 ^ (k - 1)) by (apply Z.pow_le_mono_r; lia). lia.
Qed.

Lemma iter_pos_nat {A} (f : A -> A) p x :
SpecFloat.iter_pos f p x = Nat.iter (Pos.to_nat p) f x.
Proof.
revert x. induction p as [p IH|p IH|]; intros x.
- rewrite Pos2Nat.inj_xI. cbn [SpecFloat.iter_pos]. rewrite !IH.
  replace (S (2 * Pos.to_nat p))%nat with (Pos.to_nat p + S (Pos.to_nat p))%nat by lia.
  rewrite Nat.iter_add, Nat.iter_succ_r. reflexivity.
- rewrite Pos2Nat.inj_xO. cbn [SpecFloat.iter_pos]. rewrite !IH.
  replace (2 * Pos.to_nat p)%nat with (Pos.to_nat p + Pos.to_nat p)%nat by lia.
  rewrite Nat.iter_add. reflexivity.
- reflexivity.
Qed.

Lemma shr_1_div2 m r s :
0 <= m -> shr_1 {| shr_m := m; shr_r := r; shr_s := s |}
          = {| shr_m := m / 2; shr_r := Z.odd m; shr_s := r || s |}.
Proof.
intros Hm. rewrite <- Z.div2_div.
destruct m as [|p|p]; [reflexivity| |lia].
destruct p; reflexivity.
Qed.

Lemma shr_1_rec_of X D :
0 <= X -> 0 < D -> shr_1 (rec_of X D) = rec_of X (2 * D).
Proof.
intros HX HD. unfold rec_of.
rewrite shr_1_div2 by (apply Z.div_pos; lia).
assert (Hq : X / (2 * D) = X / D / 2).
{ rewrite (Z.mul_comm 2 D). rewrite Z.div_div by lia. reflexivity. }
assert (Hm : X mod (2 * D) = X mod D + D * ((X / D) mod 2)).
{ rewrite (Z.mul_comm 2 D). apply Z.rem_mul_r; lia. }
pose proof (Z.mod_pos_bound X D HD) as Ht.
pose proof (Z.mod_pos_bound (X / D) 2 ltac:(lia)) as Hb.
rewrite Hq, Hm. f_equal.
- rewrite Zodd_mod.
  destruct (Z.eqb_spec ((X / D) mod 2) 1) as [E|E]; symmetry.
  + rewrite E. apply Z.leb_le. lia.
  + assert (E0 : (X / D) mod 2 = 0) by lia. rewrite E0. apply Z.leb_gt. lia.
- assert (Hcase : (X / D) mod 2 = 0 \/ (X / D) mod 2 = 1) by lia.
  destruct Hcase as [E|E]; rewrite E;
  repeat match goal with
  | |- context [?a =? ?b] => destruct (Z.eqb_spec a b)
  | |- context [?a <=? ?b] => destruct (Z.leb_spec a b)
  end; simpl; try reflexivity; try lia.
Qed.

Lemma shr_iter_rec_of (n : nat) X D :
0 <= X -> 0 < D ->
Nat.iter n shr_1 (rec_of X D) = rec_of X (2 ^ Z.of_nat n * D).
Proof.
intros HX HD. induction n as [|n IH].
- simpl. f_equal. lia.
- rewrite Nat.iter_succ, IH.
  rewrite shr_1_rec_of by (try apply Z.mul_pos_pos; try apply Z.pow_pos_nonneg; lia).
  f_equal. rewrite Nat2Z.inj_succ, Z.pow_succ_r by lia. lia.
Qed.

Lemma shr_record_of_loc_id r :
shr_record_of_loc (shr_m r) (loc_of_shr_record r) = r.
Proof. destruct r as [m [] []]; reflexivity. Qed.

Lemma rnd_lt_half X D : 2 * (X mod D) < D -> rnd X D = X / D.
Proof.
intros H. unfold rnd, rec_of. cbn [shr_m loc_of_shr_record].
destruct (Z.leb_spec D (2 * (X mod D))); [lia|].
destruct (negb (X mod D =? 0) && negb (2 * (X mod D) =? D)); reflexivity.
Qed.

Lemma rnd_gt_half X D : 0 < D -> D < 2 * (X mod D) -> rnd X D = X / D + 1.
Proof.
intros HD H. unfold rnd, rec_of. cbn [shr_m loc_of_shr_record].
destruct (Z.leb_spec D (2 * (X mod D))); [|lia].
destruct (Z.eqb_spec (X mod D) 0); [lia|].
destruct (Z.eqb_spec (2 * (X mod D)) D); [lia|]. reflexivity.
Qed.

Lemma rnd_floor_or_succ X D : rnd X D = X / D \/ rnd X D = X / D + 1.
Proof.
unfold rnd, rec_of. cbn [shr_m loc_of_shr_record].
destruct (D <=? 2 * (X mod D)), (negb (X mod D =? 0) && negb (2 * (X mod D) =? D));
  cbn [round_nearest_even]; try destruct (Z.even (X / D)); auto.
Qed.

Lemma rnd_bracket X D :
0 < D -> 2 * X - D <= 2 * (D * rnd X D) <= 2 * X + D.
Proof.
intros HD.
pose proof (Z.div_mod X D ltac:(lia)) as Hdm.
pose proof (Z.mod_pos_bound X D HD) as Ht.
destruct (Z.lt_trichotomy (2 * (X mod D)) D) as [Hlt|[Heq|Hgt]].
- rewrite rnd_lt_half by assumption. lia.
- destruct (rnd_floor_or_succ X D) as [E|E]; rewrite E; lia.
- rewrite rnd_gt_half by assumption. lia.
Qed.

(** What [binary_round_aux] returns on a positive mantissa located by
  [rec_of X D] whose integer part has [53 + n] binary digits. *)
Lemma binary_round_aux_rec_of (n : nat) X D ex :
0 < X -> 0 < D ->
2 ^ (52 + Z.of_nat n) <= X / D < 2 ^ (53 + Z.of_nat n) ->
bemin <= ex + Z.of_nat n -> ex + Z.of_nat n + 1 <= emax - prec ->
exists qF eF,
  binary_round_aux prec emax false (X / D) ex (loc_of_shr_record (rec_of X D))
    = S754_finite false qF eF /\
  2 ^ 52 <= Zpos qF < 2 ^ 53 /\
  ex + Z.of_nat n <= eF /\
  Zpos qF * 2 ^ (eF - (ex + Z.of_nat n)) = rnd X (2 ^ Z.of_nat n * D).
Proof.
intros HX HD Hq Hlo Hhi.
unfold binary_round_aux, shr_fexp.
replace (shr_record_of_loc (X / D) (loc_of_shr_record (rec_of X D)))
  with (rec_of X D) by (symmetry; apply (shr_record_of_loc_id (rec_of X D))).
rewrite (Zdigits2_unique (X / D) (53 + Z.of_nat n)) by (try lia; replace (53 + Z.of_nat n - 1) with (52 + Z.of_nat n) by lia; exact Hq).
assert (Hfexp : fexp prec emax (53 + Z.of_nat n + ex) - ex = Z.of_nat n).
{ unfold fexp, SpecFloat.emin. unfold bemin in Hlo. unfold prec in *. lia. }
rewrite Hfexp.
assert (Hshr : shr (rec_of X D) ex (Z.of_nat n)
               = (rec_of X (2 ^ Z.of_nat n * D), ex + Z.of_nat n)).
{ destruct n as [|n'].
  - simpl. f_equal; [f_equal|]; lia.
  - unfold shr. rewrite <- (shr_iter_rec_of (S n') X D) by lia.
    change (Z.of_nat (S n')) with (Zpos (Pos.of_succ_nat n')).
    cbv beta iota. rewrite iter_pos_nat, SuccNat2Pos.id_succ. reflexivity. }
rewrite Hshr. fold (rnd X (2 ^ Z.of_nat n * D)).
set (N := 2 ^ Z.of_nat n * D).
assert (HNpos : 0 < N) by (apply Z.mul_pos_pos; [apply Z.pow_pos_nonneg|]; lia).
assert (HqN : 2 ^ 52 <= X / N < 2 ^ 53).
{ unfold N. rewrite (Z.mul_comm (2 ^ Z.of_nat n) D), <- Z.div_div by (try apply Z.pow_pos_nonneg; lia).
  rewrite !Z.pow_add_r in Hq by lia.
  assert (0 < 2 ^ Z.of_nat n) by (apply Z.pow_pos_nonneg; lia).
  split.
  - apply Z.div_le_lower_bound; lia.
  - apply Z.div_lt_upper_bound; lia. }
set (R := rnd X N).
assert (HR : R = X / N \/ R = X / N + 1) by apply rnd_floor_or_succ.
destruct (Z.eq_dec R (2 ^ 53)) as [Etop|Ntop].
- (* rounding carried into a 54th digit *)
  rewrite Etop.
  exists (Z.to_pos (2 ^ 52)), (ex + Z.of_nat n + 1).
  split; [|split; [|split]].
  + vm_compute (Zdigits2 (2 ^ 53)).
    assert (Hf : fexp prec emax (54 + (ex + Z.of_nat n)) - (ex + Z.of_nat n) = 1).
    { unfold fexp, SpecFloat.emin. unfold bemin in Hlo. unfold prec in *. lia. }
    rewrite Hf. cbn [shr shr_record_of_loc SpecFloat.iter_pos].
    vm_compute (shr_1 _). cbn [shr_m].
    destruct (Z.leb_spec (ex + Z.of_nat n + 1) (emax - prec)); [reflexivity|lia].
  + vm_compute. split; [discriminate|reflexivity].
  + lia.
  + replace (ex + Z.of_nat n + 1 - (ex + Z.of_nat n)) with 1 by lia.
    reflexivity.
- assert (HRr : 2 ^ 52 <= R < 2 ^ 53) by lia.
  exists (Z.to_pos R), (ex + Z.of_nat n).
  assert (HRp : Zpos (Z.to_pos R) = R) by (apply Z2Pos.id; lia).
  split; [|split; [|split]].
  + rewrite (Zdigits2_unique R 53) by (try lia; exact HRr).
    assert (Hf : fexp prec emax (53 + (ex + Z.of_nat n)) - (ex + Z.of_nat n) = 0).
    { unfold fexp, SpecFloat.emin. unfold bemin in Hlo. unfold prec in *. lia. }
    rewrite Hf. cbn [shr shr_record_of_loc shr_m].
    destruct R as [|r|r]; try lia.
    destruct (Z.leb_spec (ex + Z.of_nat n) (emax - prec)); [reflexivity|lia].
  + rewrite HRp. exact HRr.
  + lia.
  + rewrite HRp, Z.sub_diag, Z.pow_0_r. lia.
Qed.

Lemma binary_round_aux_exact (n : nat) M ex :
2 ^ (52 + Z.of_nat n) <= M < 2 ^ (53 + Z.of_nat n) ->
bemin <= ex + Z.of_nat n -> ex + Z.of_nat n + 1 <= emax - prec ->
exists qF eF,
  binary_round_aux prec emax false M ex loc_Exact = S754_finite false qF eF /\
  2 ^ 52 <= Zpos qF < 2 ^ 53 /\
  ex + Z.of_nat n <= eF /\
  Zpos qF * 2 ^ (eF - (ex + Z.of_nat n)) = rnd M (2 ^ Z.of_nat n).
Proof.
intros HM Hlo Hhi.
assert (0 < M).
{ pose proof (Z.pow_pos_nonneg 2 (52 + Z.of_nat n)). lia. }
destruct (binary_round_aux_rec_of n M 1 ex) as (qF & eF & Hr & Hq & He & Hv);
  try lia.
{ rewrite Z.div_1_r. exact HM. }
exists qF, eF. rewrite Z.mul_1_r in Hv.
unfold rec_of in Hr. rewrite Z.div_1_r, Z.mod_1_r in Hr.
cbn in Hr. auto.
Qed.

Lemma pos_iter_xO p k : Zpos (Pos.iter xO p k) = Zpos p * 2 ^ Zpos k.
Proof.
induction k as [|k IH] using Pos.peano_ind.
- simpl. lia.
- rewrite Pos.iter_succ, Pos2Z.inj_xO, IH, Pos2Z.inj_succ, Z.pow_succ_r by lia. lia.
Qed.

Lemma float_of_int_pos n :
0 < n < 2 ^ 53 ->
exists j, 0 <= j <= 52 /\ 2 ^ 52 <= n * 2 ^ j < 2 ^ 53 /\
          float_of_int n = S754_finite false (Z.to_pos (n * 2 ^ j)) (- j).
Proof.
intros [Hpos Hlt]. destruct n as [|p|p]; try lia.
pose proof (Zdigits2_pos_bounds p) as Hd.
set (d := Zdigits2 (Zpos p)) in *.
assert (Hd1 : 1 <= d) by (unfold d; simpl; lia).
assert (Hd53 : d <= 53).
{ destruct (Z.le_gt_cases d 53); [assumption|].
  assert (2 ^ 53 <= 2 ^ (d - 1)) by (apply Z.pow_le_mono_r; lia). lia. }
exists (53 - d).
assert (Hrange : 2 ^ 52 <= Zpos p * 2 ^ (53 - d) < 2 ^ 53).
{ assert (E1 : 2 ^ 52 = 2 ^ (d - 1) * 2 ^ (53 - d)).
  { rewrite <- Z.pow_add_r by lia. f_equal. lia. }
  assert (E2 : 2 ^ 53 = 2 ^ d * 2 ^ (53 - d)).
  { rewrite <- Z.pow_add_r by lia. f_equal. lia. }
  assert (0 < 2 ^ (53 - d)) by (apply Z.pow_pos_nonneg; lia).
  rewrite E1, E2.
  split; [apply Z.mul_le_mono_nonneg_r|apply Z.mul_lt_mono_pos_r]; lia. }
split; [lia|]. split; [exact Hrange|].
unfold float_of_int, binary_normalize, binary_round.
change (Zpos (digits2_pos p)) with d.
assert (Hf : fexp prec emax (d + 0) = d - 53).
{ unfold fexp, SpecFloat.emin, prec, emax. lia. }
rewrite Hf.
assert (Hal : shl_align p 0 (d - 53) = (Z.to_pos (Zpos p * 2 ^ (53 - d)), d - 53)).
{ unfold shl_align. rewrite Z.sub_0_r.
  destruct (Z.eq_dec d 53) as [E|E].
  - rewrite E. simpl. f_equal. lia.
  - destruct (d - 53) as [|k|k] eqn:Ek; try lia.
    f_equal. apply Pos2Z.inj. rewrite pos_iter_xO.
    replace (53 - d) with (Zpos k) by lia.
    rewrite Z2Pos.id; [reflexivity|].
    apply Z.mul_pos_pos; [lia|apply Z.pow_pos_nonneg; lia]. }
rewrite Hal.
set (a := Zpos p * 2 ^ (53 - d)) in *.
assert (Ha : Zpos (Z.to_pos a) = a) by (apply Z2Pos.id; lia).
rewrite Ha.
destruct (binary_round_aux_exact 0 a (d - 53)) as (qF & eF & Hr & Hq & He & Hv).
{ simpl Z.of_nat. rewrite !Z.add_0_r. exact Hrange. }
{ unfold bemin, prec, emax. lia. }
{ unfold prec, emax. lia. }
rewrite Hr. simpl Z.of_nat in *. rewrite Z.add_0_r in *.
change (2 ^ 0) with 1 in Hv.
rewrite rnd_lt_half in Hv by (rewrite Z.mod_1_r; lia).
rewrite Z.div_1_r in Hv.
assert (HeF : eF = d - 53).
{ destruct (Z.eq_dec eF (d - 53)); [assumption|].
  assert (2 ^ 1 <= 2 ^ (eF - (d - 53))) by (apply Z.pow_le_mono_r; lia).
  change (2 ^ 1) with 2 in *. nia. }
subst eF. rewrite Z.sub_diag, Z.pow_0_r, Z.mul_1_r in Hv.
f_equal; [|lia]. apply Pos2Z.inj. rewrite Ha. exact Hv.
Qed.

Lemma float_of_int_0 : float_of_int 0 = S754_zero false.
Proof. reflexivity. Qed.

Lemma script_threshold n c :
0 <= c <= n -> n < 2 ^ 50 ->
int_gt_float c (int_mul_float n c03) = (3 * n <? 10 * c).
Proof.
intros Hc Hn. unfold int_mul_float.
destruct (Z.eq_dec n 0) as [->|Hn0].
{ assert (c = 0) by lia. subst c. reflexivity. }
destruct (float_of_int_pos n) as (j & Hj & Ha & Hf).
{ change (2 ^ 50) with 1125899906842624 in Hn. change (2 ^ 53) with 9007199254740992. lia. }
rewrite Hf. unfold c03, SFmul. cbn [xorb].
set (J := 2 ^ j) in *. set (a := n * J) in *.
assert (HJ : 0 < J) by (apply Z.pow_pos_nonneg; lia).
rewrite Pos2Z.inj_mul, Z2Pos.id by lia.
set (m0 := 5404319552844595).
change (2 ^ 52) with 4503599627370496 in Ha.
change (2 ^ 53) with 9007199254740992 in Ha.
change (2 ^ 50) with 1125899906842624 in Hn.
assert (Hj3 : 3 <= j).
{ destruct (Z.le_gt_cases 3 j); [assumption|].
  assert (J <= 2 ^ 2) by (apply Z.pow_le_mono_r; lia).
  change (2 ^ 2) with 4 in *. unfold a in Ha. nia. }
(* the product has 105 or 106 binary digits *)
assert (Hn' : exists n' : nat, (n' = 52 \/ n' = 53)%nat /\
          2 ^ (52 + Z.of_nat n') <= a * m0 < 2 ^ (53 + Z.of_nat n')).
{ destruct (Z.lt_ge_cases (a * m0) (2 ^ 105)) as [H|H].
  - exists 52%nat. split; [auto|]. change (2 ^ (52 + Z.of_nat 52)) with (2 ^ 104).
    change (2 ^ (53 + Z.of_nat 52)) with (2 ^ 105). split; [|exact H].
    change (2 ^ 104) with (4503599627370496 * 4503599627370496). unfold m0. nia.
  - exists 53%nat. split; [auto|]. change (2 ^ (52 + Z.of_nat 53)) with (2 ^ 105).
    change (2 ^ (53 + Z.of_nat 53)) with (2 ^ 106). split; [exact H|].
    change (2 ^ 106) with (9007199254740992 * 9007199254740992). unfold m0. nia. }
destruct Hn' as (n' & Hn'v & Hrange).
destruct (binary_round_aux_exact n' (a * m0) (- j + -54)) as (qF & eF & Hr & Hq & He & Hv).
{ exact Hrange. }
{ unfold bemin, emax, prec. lia. }
{ unfold emax, prec. lia. }
rewrite Hr. clear Hr Hf.
set (K := 2 ^ Z.of_nat n') in *.
set (R := rnd (a * m0) K) in *.
assert (HK : 0 < K) by (apply Z.pow_pos_nonneg; lia).
assert (HKr : 4503599627370496 * K <= a * m0 < 9007199254740992 * K).
{ rewrite !Z.pow_add_r in Hrange by lia. exact Hrange. }
pose proof (rnd_bracket (a * m0) K HK) as Hbr. fold R in Hbr.
set (e0 := - j + -54 + Z.of_nat n') in *.
set (S := 2 ^ (eF - e0)) in *.
assert (HS : 0 < S) by (apply Z.pow_pos_nonneg; lia).
change (2 ^ 52) with 4503599627370496 in Hq.
change (2 ^ 53) with 9007199254740992 in Hq.
(* the rounded mantissa is at most 2^53, so the exponent moved by at most one *)
assert (HRle : R <= 9007199254740992).
{ destruct (rnd_floor_or_succ (a * m0) K) as [E|E]; fold R in E; rewrite E;
    assert (a * m0 / K < 9007199254740992) by (apply Z.div_lt_upper_bound; lia); lia. }
assert (HeF : eF < 0).
{ destruct (Z.lt_ge_cases eF 0); [assumption|].
  assert (2 ^ 2 <= S) by (apply Z.pow_le_mono_r; unfold e0; lia).
  change (2 ^ 2) with 4 in *. nia. }
unfold int_gt_float. destruct (Z.leb_spec 0 eF) as [?|_]; [lia|].
set (U := 2 ^ (- eF)).
assert (HU : 0 < U) by (apply Z.pow_pos_nonneg; lia).
assert (HSUK : S * U * K = J * 18014398509481984).
{ unfold S, U, K, J. rewrite <- !Z.pow_add_r by (unfold e0; lia).
  change 18014398509481984 with (2 ^ 54). rewrite <- Z.pow_add_r by lia.
  f_equal. unfold e0. lia. }
set (T := 18014398509481984) in *.
assert (Hm0 : 10 * m0 = 3 * T - 2) by reflexivity.
(* scale both sides of the comparison by S * K *)
assert (Hscale : Zpos qF < c * U <-> K * R < c * J * T).
{ rewrite <- Hv. replace (c * J * T) with (c * (S * U * K)) by (rewrite HSUK; ring).
  replace (K * (Zpos qF * S)) with (Zpos qF * (S * K)) by ring.
  replace (c * (S * U * K)) with (c * U * (S * K)) by ring.
  assert (0 < S * K) by (apply Z.mul_pos_pos; lia).
  split; intros H'.
  - apply Z.mul_lt_mono_pos_r; assumption.
  - apply Z.mul_lt_mono_pos_r in H'; assumption. }
assert (HaJ : a <= 1125899906842623 * J)
  by (unfold a; apply Z.mul_le_mono_nonneg_r; lia).
assert (Hkey : K * R < c * J * T <-> 3 * n < 10 * c).
{ destruct (Z.lt_trichotomy (3 * n) (10 * c)) as [Hlt|[Heq|Hgt]].
  - assert ((3 * n + 1) * J <= (10 * c) * J) by (apply Z.mul_le_mono_nonneg_r; lia).
    assert (3 * a + J <= 10 * (c * J)) by (unfold a; lia).
    split; [intros _; exact Hlt|intros _]. 
    assert (10 * (a * m0) = a * (3 * T - 2)) by (rewrite <- Hm0; ring).
    unfold T in *. lia.
  - split; [|lia]. intros Hlt.
    (* n = 10 g and c = 3 g: the product rounds up to exactly 3 g *)
    assert (Hg : exists g, n = 10 * g /\ c = 3 * g).
    { exists (n / 10). pose proof (Z.div_mod n 10 ltac:(lia)).
      pose proof (Z.mod_pos_bound n 10 ltac:(lia)). lia. }
    destruct Hg as (g & -> & ->).
    set (W := g * J).
    assert (HW : 0 < W) by (unfold W; apply Z.mul_pos_pos; lia).
    assert (HX : a * m0 = W * (3 * T - 2)).
    { unfold a, W. rewrite <- Hm0. ring. }
    set (G := 3 * g * (S * U)).
    assert (HG : K * G = 3 * W * T).
    { unfold G, W. replace (K * (3 * g * (S * U))) with (3 * g * (S * U * K)) by ring.
      rewrite HSUK. ring. }
    assert (HK4 : 4 * W < K) by (unfold T in *; lia).
    assert (Hdiv : a * m0 / K = G - 1).
    { symmetry. apply (Z.div_unique _ _ _ (K - 2 * W)); [lia|]. rewrite HX. 
      replace (K * (G - 1)) with (K * G - K) by ring. rewrite HG. ring. }
    assert (Hmod : (a * m0) mod K = K - 2 * W).
    { symmetry. apply (Z.mod_unique _ _ (G - 1)); [lia|]. rewrite HX.
      replace (K * (G - 1)) with (K * G - K) by ring. rewrite HG. ring. }
    assert (HRG : R = G).
    { unfold R. rewrite rnd_gt_half by lia. lia. }
    rewrite HRG, HG in Hlt. unfold W in Hlt. lia.
  - assert ((10 * c + 1) * J <= (3 * n) * J) by (apply Z.mul_le_mono_nonneg_r; lia).
    assert (10 * (c * J) + J <= 3 * a) by (unfold a; lia).
    split; [|lia]. intros Hlt. exfalso.
    assert (10 * (a * m0) = a * (3 * T - 2)) by (rewrite <- Hm0; ring).
    unfold T in *. lia. }
fold U.
destruct (Z.ltb_spec (Zpos qF) (c * U)), (Z.ltb_spec (3 * n) (10 * c)); 
  try reflexivity; exfalso; tauto || lia.
Qed.

Lemma new_location_rec_of X D :
0 < D -> new_location D (X mod D) = loc_of_shr_record (rec_of X D).
Proof.
intros HD. pose proof (Z.mod_pos_bound X D HD) as Ht.
set (t := X mod D) in *.
unfold new_location, new_location_even, new_location_odd, rec_of.
cbn [loc_of_shr_record]. fold t.
assert (Hpar : Z.even D = false -> 2 * t <> D).
{ intros Hev E. rewrite <- E, Z.even_mul in Hev. discriminate. }
destruct (Z.even D);
  destruct (Z.eqb_spec t 0); cbn [negb andb];
  destruct (Z.leb_spec D (2 * t)); destruct (Z.eqb_spec (2 * t) D);
  cbn [negb andb]; try lia; try reflexivity;
  try (destruct (Z.compare_spec (2 * t) D); try lia; reflexivity);
  try (destruct (Z.compare_spec (2 * t + 1) D); try lia; try reflexivity);
  exfalso; apply Hpar; auto.
Qed.

(** Ordering of two positive doubles with full 53-bit mantissas. *)
Lemma SFltb_canonical m1 e1 m2 e2 lo :
2 ^ 52 <= Zpos m1 < 2 ^ 53 -> 2 ^ 52 <= Zpos m2 < 2 ^ 53 ->
lo <= e1 -> lo <= e2 ->
SFltb (S754_finite false m1 e1) (S754_finite false m2 e2) = true
<-> Zpos m1 * 2 ^ (e1 - lo) < Zpos m2 * 2 ^ (e2 - lo).
Proof.
intros H1 H2 L1 L2.
change (2 ^ 52) with 4503599627370496 in *.
change (2 ^ 53) with 9007199254740992 in *.
unfold SFltb, SFcompare.
change (Pos.compare_cont Eq m1 m2) with (Pos.compare m1 m2).
rewrite Pos2Z.inj_compare.
destruct (Z.compare_spec e1 e2) as [E|E|E].
- subst e2. assert (0 < 2 ^ (e1 - lo)) by (apply Z.pow_pos_nonneg; lia).
  destruct (Z.compare_spec (Zpos m1) (Zpos m2)) as [C|C|C];
    split; intros Hx; try discriminate; try reflexivity; nia.
- split; [intros _|reflexivity].
  assert (Hp : 2 ^ (e2 - lo) = 2 ^ (e2 - e1) * 2 ^ (e1 - lo)).
  { rewrite <- Z.pow_add_r by lia. f_equal. lia. }
  assert (2 ^ 1 <= 2 ^ (e2 - e1)) by (apply Z.pow_le_mono_r; lia).
  assert (0 < 2 ^ (e1 - lo)) by (apply Z.pow_pos_nonneg; lia).
  change (2 ^ 1) with 2 in *. rewrite Hp. nia.
- split; [discriminate|intros Hx; exfalso].
  assert (Hp : 2 ^ (e1 - lo) = 2 ^ (e1 - e2) * 2 ^ (e2 - lo)).
  { rewrite <- Z.pow_add_r by lia. f_equal. lia. }
  assert (2 ^ 1 <= 2 ^ (e1 - e2)) by (apply Z.pow_le_mono_r; lia).
  assert (0 < 2 ^ (e2 - lo)) by (apply Z.pow_pos_nonneg; lia).
  change (2 ^ 1) with 2 in *. rewrite Hp in Hx. nia.
Qed.

Lemma div_eucl_pair a b : Z.div_eucl a b = (a / b, a mod b).
Proof. unfold Z.div, Z.modulo. destruct (Z.div_eucl a b). reflexivity. Qed.

Lemma SFdiv_core_canonical a1 j1 a2 j2 :
2 ^ 52 <= a1 < 2 ^ 53 -> 2 ^ 52 <= a2 < 2 ^ 53 ->
0 <= j1 <= 52 -> 0 <= j2 <= 52 ->
SFdiv_core_binary prec emax a1 (- j1) a2 (- j2)
= (a1 * 2 ^ 53 / a2, j2 - j1 - 53, new_location a2 ((a1 * 2 ^ 53) mod a2)).
Proof.
intros H1 H2 Hj1 Hj2. unfold SFdiv_core_binary.
rewrite (Zdigits2_unique a1 53), (Zdigits2_unique a2 53) by (try lia; assumption).
replace (Z.min (fexp prec emax (53 + - j1 - (53 + - j2))) (- j1 - - j2))
  with (j2 - j1 - 53) by (unfold fexp, SpecFloat.emin, prec, emax; lia).
replace (- j1 - - j2 - (j2 - j1 - 53)) with 53 by lia.
cbv iota beta. rewrite Z.shiftl_mul_pow2 by lia.
rewrite div_eucl_pair. reflexivity.
Qed.

Lemma pow2_sandwich x y :
0 <= x -> 0 <= y -> 5 * 2 ^ y <= 2 * 2 ^ x -> 2 ^ x < 5 * 2 ^ y ->
2 ^ x = 4 * 2 ^ y.
Proof.
intros Hx Hy Hlo Hhi.
assert (Hy0 : 0 < 2 ^ y) by (apply Z.pow_pos_nonneg; lia).
destruct (Z.lt_trichotomy x (y + 2)) as [C|[C|C]].
- assert (2 ^ x <= 2 ^ (y + 1)) by (apply Z.pow_le_mono_r; lia).
  rewrite Z.pow_add_r in * by lia. change (2 ^ 1) with 2 in *. lia.
- rewrite C, Z.pow_add_r by lia. change (2 ^ 2) with 4. lia.
- assert (2 ^ (y + 3) <= 2 ^ x) by (apply Z.pow_le_mono_r; lia).
  rewrite Z.pow_add_r in * by lia. change (2 ^ 3) with 8 in *. lia.
Qed.

Lemma lexical_threshold h w :
0 <= h < 2 ^ 50 -> 0 < w < 2 ^ 50 ->
float_gt (SFdiv prec emax (float_of_int h) (float_of_int w)) c02 = (w <? 5 * h).
Proof.
intros Hh Hw. unfold float_gt.
change (2 ^ 50) with 1125899906842624 in *.
destruct (float_of_int_pos w) as (j2 & Hj2 & Ha2 & Hf2).
{ change (2 ^ 53) with 9007199254740992. lia. }
destruct (Z.eq_dec h 0) as [->|Hh0].
{ rewrite Hf2. replace (5 * 0) with 0 by lia.
  destruct (Z.ltb_spec w 0); [lia|reflexivity]. }
destruct (float_of_int_pos h) as (j1 & Hj1 & Ha1 & Hf1).
{ change (2 ^ 53) with 9007199254740992. lia. }
rewrite Hf1, Hf2. unfold SFdiv. cbn [xorb].
set (J1 := 2 ^ j1) in *. set (J2 := 2 ^ j2) in *.
set (a1 := h * J1) in *. set (a2 := w * J2) in *.
assert (HJ1 : 0 < J1) by (apply Z.pow_pos_nonneg; lia).
assert (HJ2 : 0 < J2) by (apply Z.pow_pos_nonneg; lia).
assert (Hhpos : 0 < h) by lia.
assert (Hj3 : 3 <= j1).
{ destruct (Z.le_gt_cases 3 j1); [assumption|].
  assert (J1 <= 2 ^ 2) by (apply Z.pow_le_mono_r; lia).
  change (2 ^ 2) with 4 in *. change (2 ^ 52) with 4503599627370496 in Ha1.
  assert (h * J1 <= h * 4) by (apply Z.mul_le_mono_nonneg_l; lia).
  unfold a1 in Ha1. lia. }
assert (HJ8 : 8 <= J1).
{ change 8 with (2 ^ 3). apply Z.pow_le_mono_r; lia. }
rewrite !Z2Pos.id by (pose proof (Z.pow_pos_nonneg 2 52); lia).
rewrite SFdiv_core_canonical by assumption.
change (2 ^ 52) with 4503599627370496 in *.
change (2 ^ 53) with 9007199254740992 in *.
set (X := a1 * 9007199254740992).
assert (HXpos : 0 < X) by (unfold X; lia).
assert (Ha2pos : 0 < a2) by lia.
rewrite new_location_rec_of by assumption.
(* the quotient has 53 or 54 binary digits *)
pose proof (Z.mul_div_le X a2 Ha2pos) as Hq1.
pose proof (Z.mul_succ_div_gt X a2 Ha2pos) as Hq2.
assert (Hn : exists n : nat, (n = 0 \/ n = 1)%nat /\
          2 ^ (52 + Z.of_nat n) <= X / a2 < 2 ^ (53 + Z.of_nat n)).
{ assert (4503599627370496 <= X / a2).
  { apply Z.div_le_lower_bound; [lia|]. unfold X. lia. }
  assert (X / a2 < 18014398509481984).
  { apply Z.div_lt_upper_bound; [lia|]. unfold X. lia. }
  destruct (Z.lt_ge_cases (X / a2) 9007199254740992).
  - exists 0%nat. split; [auto|]. change (2 ^ (52 + Z.of_nat 0)) with 4503599627370496.
    change (2 ^ (53 + Z.of_nat 0)) with 9007199254740992. lia.
  - exists 1%nat. split; [auto|]. change (2 ^ (52 + Z.of_nat 1)) with 9007199254740992.
    change (2 ^ (53 + Z.of_nat 1)) with 18014398509481984. lia. }
destruct Hn as (n & Hnv & Hrange).
destruct (binary_round_aux_rec_of n X a2 (j2 - j1 - 53))
  as (qF & eF & Hr & Hq & He & Hv); try assumption.
{ unfold bemin, emax, prec. lia. }
{ unfold emax, prec. lia. }
rewrite Hr. clear Hr Hf1 Hf2.
set (K := 2 ^ Z.of_nat n) in *.
assert (HK : 0 < K) by (apply Z.pow_pos_nonneg; lia).
assert (HK12 : K = 1 \/ K = 2) by (destruct Hnv as [-> | ->]; [left|right]; reflexivity).
assert (HrangeK : 4503599627370496 * K <= X / a2 < 9007199254740992 * K).
{ rewrite !Z.pow_add_r in Hrange by lia. exact Hrange. }
clear Hrange.
set (N := K * a2) in *.
assert (HN : 0 < N) by (unfold N; apply Z.mul_pos_pos; lia).
set (R := rnd X N) in *.
pose proof (rnd_bracket X N HN) as Hbr. fold R in Hbr.
set (e0 := j2 - j1 - 53 + Z.of_nat n) in *.
set (S := 2 ^ (eF - e0)) in *.
assert (HS : 0 < S) by (apply Z.pow_pos_nonneg; lia).
set (lo := Z.min (-55) e0).
set (m02 := 7205759403792794%positive).
assert (Hcmp := SFltb_canonical m02 (-55) qF eF lo).
change (2 ^ 52) with 4503599627370496 in Hcmp.
change (2 ^ 53) with 9007199254740992 in Hcmp.
specialize (Hcmp ltac:(unfold m02; lia) Hq ltac:(unfold lo; lia) ltac:(unfold lo; lia)).
set (P1 := 2 ^ (-55 - lo)) in *.
set (Q2 := 2 ^ (e0 - lo)).
assert (HP1 : 0 < P1) by (apply Z.pow_pos_nonneg; unfold lo; lia).
assert (HQ2 : 0 < Q2) by (apply Z.pow_pos_nonneg; unfold lo; lia).
assert (HeFlo : 2 ^ (eF - lo) = S * Q2).
{ unfold S, Q2. rewrite <- Z.pow_add_r by (unfold lo; lia). f_equal. lia. }
assert (Hpow : Q2 * J1 = P1 * (4 * K * J2)).
{ unfold Q2, J1, P1, K, J2. change 4 with (2 ^ 2).
  rewrite <- !Z.pow_add_r by (unfold lo, e0; lia). f_equal. unfold e0. lia. }
rewrite HeFlo in Hcmp.
assert (Hw0 : 0 < J1 * w) by (apply Z.mul_pos_pos; lia).
assert (Hscale : Zpos m02 * P1 < Zpos qF * (S * Q2)
                 <-> Zpos m02 * (J1 * w) < 4 * (N * R)).
{ replace (Zpos qF * (S * Q2)) with (R * Q2) by (rewrite <- Hv; ring).
  assert (E1 : R * Q2 * (J1 * w) = 4 * (N * R) * P1).
  { replace (R * Q2 * (J1 * w)) with (R * w * (Q2 * J1)) by ring.
    rewrite Hpow. unfold N, a2. ring. }
  assert (E2 : Zpos m02 * P1 * (J1 * w) = Zpos m02 * (J1 * w) * P1) by ring.
  split; intros H'.
  - apply (Z.mul_lt_mono_pos_r P1); [assumption|]. rewrite <- E1, <- E2.
    apply Z.mul_lt_mono_pos_r; assumption.
  - apply (Z.mul_lt_mono_pos_r (J1 * w)); [assumption|]. rewrite E1, E2.
    apply Z.mul_lt_mono_pos_r; assumption. }
assert (HNlt : N < 18014398509481984) by (unfold N; destruct HK12 as [-> | ->]; lia).
assert (HX : X = 9007199254740992 * (h * J1)) by (unfold X, a1; ring).
assert (HPw : J1 * w <= J1 * 1125899906842623)
  by (apply Z.mul_le_mono_nonneg_l; lia).
assert (Hkey : 7205759403792794 * (J1 * w) < 4 * (N * R) <-> w < 5 * h).
{ clear Hcmp Hscale Hv Hq He HeFlo Hpow.
  destruct (Z.lt_trichotomy w (5 * h)) as [Hlt|[Heq|Hgt]].
  - split; [intros _; exact Hlt|intros _].
    assert ((w + 1) * J1 <= (5 * h) * J1) by (apply Z.mul_le_mono_nonneg_r; lia).
    lia.
  - split; [|lia]. intros Hlt. exfalso.
    (* both mantissas are h times a power of two: the exponents differ by n + 2 *)
    assert (HKJ : K * J2 = 2 ^ (Z.of_nat n + j2)).
    { unfold K, J2. rewrite Z.pow_add_r by lia. reflexivity. }
    assert (Ha2h : a2 = h * (5 * (K * J2)) \/ 2 * a2 = h * (5 * (K * J2))).
    { unfold a2. rewrite Heq. destruct HK12 as [-> | ->]; [left|right]; ring. }
    assert (HNh : N = h * (5 * (K * J2))) by (unfold N, a2; rewrite Heq; ring).
    assert (HNX : 4503599627370496 * N <= X).
    { assert ((4503599627370496 * K) * a2 <= (X / a2) * a2)
        by (apply Z.mul_le_mono_nonneg_r; lia).
      unfold N. lia. }
    assert (HXN : X < 9007199254740992 * N).
    { assert ((X / a2 + 1) * a2 <= (9007199254740992 * K) * a2)
        by (apply Z.mul_le_mono_nonneg_r; lia).
      unfold N. lia. }
    assert (Hlo' : 5 * (K * J2) <= 2 * J1).
    { assert (Hm : h * (4503599627370496 * (5 * (K * J2))) <= h * (9007199254740992 * J1)).
      { rewrite HNh, HX in HNX. lia. }
      apply Z.mul_le_mono_pos_l in Hm; lia. }
    assert (Hhi' : J1 < 5 * (K * J2)).
    { assert (Hm : h * (9007199254740992 * J1) < h * (9007199254740992 * (5 * (K * J2)))).
      { rewrite HNh, HX in HXN. lia. }
      apply Z.mul_lt_mono_pos_l in Hm; lia. }
    assert (Hrel : J1 = 4 * (K * J2)).
    { rewrite HKJ in *. unfold J1. apply pow2_sandwich; try lia; assumption. }
    set (u := K * J2 * h).
    assert (Hu : 0 < u) by (unfold u; repeat apply Z.mul_pos_pos; lia).
    assert (HNu : N = 5 * u) by (rewrite HNh; unfold u; ring).
    assert (HXu : X = N * (7205759403792794 - 1) + 3 * u).
    { rewrite HNu, HX, Hrel. unfold u. ring. }
    assert (Hdiv : X / N = 7205759403792794 - 1).
    { symmetry. apply (Z.div_unique _ _ _ (3 * u)); [lia|exact HXu]. }
    assert (Hmod : X mod N = 3 * u).
    { symmetry. apply (Z.mod_unique _ _ (7205759403792794 - 1)); [lia|exact HXu]. }
    assert (HR : R = 7205759403792794).
    { unfold R. rewrite rnd_gt_half by lia. lia. }
    assert (Hfin : 7205759403792794 * (J1 * w) = 4 * (N * R)).
    { rewrite HR, HNu, Hrel, Heq. unfold u. ring. }
    lia.
  - split; [|lia]. intros Hlt. exfalso.
    assert ((5 * h + 1) * J1 <= w * J1) by (apply Z.mul_le_mono_nonneg_r; lia).
    lia. }
change (Zpos m02) with 7205759403792794 in Hscale.
unfold c02. fold m02.
destruct (SFltb (S754_finite false m02 (-55)) (S754_finite false qF eF)) eqn:Hb;
  destruct (Z.ltb_spec w (5 * h)); try reflexivity; exfalso.
- assert (w < 5 * h) by (apply Hkey, Hscale, Hcmp; reflexivity). lia.
- assert (true = false -> False) by discriminate.
  assert (false = true) by (apply Hcmp, Hscale, Hkey; assumption). discriminate.
Qed.

(** A product of a non-negative int and [0.3] is never negative. *)
Lemma binary_round_aux_false_sign m e l :
match binary_round_aux prec emax false m e l with
| S754_finite s _ _ | S754_infinity s => s = false
| _ => True
end.
Proof.
unfold binary_round_aux.
destruct (shr_fexp prec emax m e l) as [mrs' e'].
destruct (shr_fexp prec emax _ e' loc_Exact) as [mrs'' e''].
destruct (shr_m mrs''); try exact I.
destruct (e'' <=? emax - prec); reflexivity.
Qed.

Lemma int_gt_float_zero_product n :
0 <= n -> int_gt_float 0 (int_mul_float n c03) = false.
Proof.
intros Hn. unfold int_mul_float, float_of_int, binary_normalize.
destruct n as [|p|p]; [reflexivity| |lia].
unfold binary_round.
destruct (shl_align p 0 _) as [mz ez].
pose proof (binary_round_aux_false_sign (Zpos mz) ez loc_Exact) as Hs.
destruct (binary_round_aux prec emax false (Zpos mz) ez loc_Exact) as [s|s| |s m e];
  try subst s; try reflexivity.
unfold c03, SFmul. cbn [xorb].
pose proof (binary_round_aux_false_sign (Zpos (m * 5404319552844595)) (e + -54) loc_Exact) as Hs.
destruct (binary_round_aux prec emax false _ (e + -54) loc_Exact) as [s|s| |s m' e'];
  try subst s; try reflexivity.
unfold int_gt_float.
destruct (0 <=? e').
- apply Z.ltb_ge. apply Z.mul_nonneg_nonneg; [lia|apply Z.pow_nonneg; lia].
- apply Z.ltb_ge. lia.
Qed.

End FloatFacts.

(** * The language router *)

Section Router.

Variable E : Env.

Lemma sum_of_ones {A} (l : list A) z :
  fold_left Z.add (map (fun _ => 1) l) z = z + len l.
Proof.
  unfold len. revert z. induction l as [|a l IH]; intros z.
  - simpl. lia.
  - cbn [map fold_left]. rewrite IH. cbn [length]. lia.
Qed.

Lemma devanagari_count_eq text :
  fold_left Z.add
    (map (fun _ => 1) (filter (fun char => Is_true (is_devanagari char)) text)) 0
  = devanagari_chars text.
Proof. rewrite sum_of_ones. reflexivity. Qed.

Lemma devanagari_chars_bounds text :
  0 <= devanagari_chars text <= len text.
Proof.
  unfold devanagari_chars, len.
  split; [apply Nat2Z.is_nonneg|]. apply Nat2Z.inj_le, length_filter.
Qed.

Lemma hinglish_count_eq self words z :
  fold_left
    (fun count word =>
       if bool_decide (word ∈ hinglish_keywords self) then count + 1 else count)
    words z
  = z + keyword_tokens self words.
Proof.
  unfold keyword_tokens, len. revert z.
  induction words as [|w ws IH]; intros z.
  - simpl. lia.
  - cbn [fold_left]. rewrite IH. rewrite filter_cons.
    destruct (decide (w ∈ hinglish_keywords self)) as [Hin|Hout].
    + rewrite bool_decide_eq_true_2 by assumption. cbn [length]. lia.
    + rewrite bool_decide_eq_false_2 by assumption. lia.
Qed.

Lemma keyword_tokens_bounds self words :
  0 <= keyword_tokens self words <= len words.
Proof.
  unfold keyword_tokens, len.
  split; [apply Nat2Z.is_nonneg|]. apply Nat2Z.inj_le, length_filter.
Qed.

(** The script check is the exact comparison "more than three tenths". *)
Lemma script_check_spec text :
  len text < 2 ^ 50 ->
  int_gt_float (devanagari_chars text) (int_mul_float (len text) c03)
  = (3 * len text <? 10 * devanagari_chars text).
Proof.
  intros Hlen. apply script_threshold; [apply devanagari_chars_bounds|assumption].
Qed.

(** The lexical check is the exact comparison "more than one fifth". *)
Lemma detect_hinglish_spec self text :
  len (tokens E text) < 2 ^ 50 ->
  detect_hinglish E self text
  = Ok (len (tokens E text) <? 5 * keyword_tokens self (tokens E text)).
Proof.
  intros Hlen. unfold detect_hinglish. fold (tokens E text).
  set (words := tokens E text) in *.
  rewrite hinglish_count_eq, Z.add_0_l.
  pose proof (keyword_tokens_bounds self words) as Hk.
  destruct (Z.ltb_spec 0 (len words)) as [Hpos|Hzero].
  - unfold py_truediv. destruct (Z.eqb_spec (len words) 0); [lia|].
    cbn [bindR]. rewrite lexical_threshold by lia.
    destruct (len words <? 5 * keyword_tokens self words); reflexivity.
  - destruct (Z.ltb_spec (len words) (5 * keyword_tokens self words)); [lia|reflexivity].
Qed.

Lemma detect_hinglish_total self text :
  exists b, detect_hinglish E self text = Ok b.
Proof.
  unfold detect_hinglish.
  destruct (Z.ltb_spec 0 (len (split (lower E text)))) as [Hpos|Hzero].
  - unfold py_truediv. destruct (Z.eqb_spec (len (split (lower E text))) 0); [lia|].
    cbn [bindR]. destruct (float_gt _ c02); eauto.
  - eauto.
Qed.

Lemma auto_detect_language_total self text :
  exists l, auto_detect_language E self text = Ok l.
Proof.
  unfold auto_detect_language.
  destruct (int_gt_float _ _); [eauto|].
  destruct (detect_hinglish_total self text) as [b ->]. cbn [bindR].
  destruct b; eauto.
Qed.

(** Whitespace-only text has no token. *)
Lemma split_from_spaces text :
  forallb isspace text = true -> split_from [] text = [].
Proof.
  induction text as [|c text IH]; [reflexivity|].
  cbn [forallb split_from]. intros H. apply andb_prop in H as [Hc Ht].
  rewrite Hc. auto.
Qed.

Lemma isspace_plain c : isspace c = true -> plain_char c = true.
Proof. intros H. unfold plain_char. rewrite H. apply orb_true_r. Qed.

Lemma isspace_lower_ascii c : isspace c = true -> lower_ascii c = c.
Proof.
  intros H. unfold lower_ascii.
  destruct ((65 <=? c) && (c <=? 90)) eqn:Hup; [|reflexivity].
  exfalso. apply andb_prop in Hup as [H1 H2].
  apply Z.leb_le in H1. apply Z.leb_le in H2.
  unfold isspace in H.
  repeat match type of H with
  | (_ || _ = true) => apply orb_prop in H as [H|H]
  end;
  repeat match type of H with
  | (_ && _ = true) => apply andb_prop in H as [? H]
  end;
  repeat match goal with
  | Hx : (_ <=? _) = true |- _ => apply Z.leb_le in Hx
  | Hx : (_ =? _) = true |- _ => apply Z.eqb_eq in Hx
  end; lia.
Qed.

Lemma isspace_not_devanagari c : isspace c = true -> is_devanagari c = false.
Proof.
  intros H. unfold is_devanagari.
  destruct ((2304 <=? c) && (c <=? 2431)) eqn:Hd; [|reflexivity].
  exfalso. apply andb_prop in Hd as [H1 H2].
  apply Z.leb_le in H1. apply Z.leb_le in H2.
  unfold isspace in H.
  repeat match type of H with
  | (_ || _ = true) => apply orb_prop in H as [H|H]
  end;
  repeat match type of H with
  | (_ && _ = true) => apply andb_prop in H as [? H]
  end;
  repeat match goal with
  | Hx : (_ <=? _) = true |- _ => apply Z.leb_le in Hx
  | Hx : (_ =? _) = true |- _ => apply Z.eqb_eq in Hx
  end; lia.
Qed.

Lemma lower_spaces text :
  forallb isspace text = true -> lower E text = text.
Proof.
  intros H. unfold lower.
  assert (Hp : forallb plain_char text = true).
  { apply forallb_forall. intros c Hc. apply isspace_plain.
    rewrite forallb_forall in H. apply H, Hc. }
  rewrite Hp. clear Hp.
  induction text as [|c text IH]; [reflexivity|].
  cbn [forallb] in H. apply andb_prop in H as [Hc Ht].
  cbn [map]. rewrite isspace_lower_ascii, IH by assumption. reflexivity.
Qed.

Lemma tokens_spaces text :
  forallb isspace text = true -> tokens E text = [].
Proof.
  intros H. unfold tokens, split. rewrite lower_spaces by assumption.
  apply split_from_spaces, H.
Qed.

Lemma devanagari_chars_spaces text :
  forallb isspace text = true -> devanagari_chars text = 0.
Proof.
  intros H. unfold devanagari_chars, len.
  induction text as [|c text IH]; [reflexivity|].
  cbn [forallb] in H. apply andb_prop in H as [Hc Ht].
  rewrite filter_cons. rewrite (isspace_not_devanagari c Hc).
  destruct (decide (Is_true false)) as [Hf|_]; [destruct Hf|]. auto.
Qed.

Lemma detect_hinglish_no_token self text :
  tokens E text = [] -> detect_hinglish E self text = Ok false.
Proof.
  intros H. unfold detect_hinglish. fold (tokens E text). rewrite H. reflexivity.
Qed.

End Router.

(** * Properties of the language router *)

(** C1. [auto_detect_language] decides in a fixed order, first match wins:
    when more than 30% of the characters are Devanagari the answer is "hi",
    whatever the words are; otherwise the answer is "hi" when
    [detect_hinglish] says so; otherwise it is the session's current
    language, unchanged. *)
Theorem auto_detect_language_decision_order (E : Env) (self : TextToSpeech) (text : str) :
  len text < 2 ^ 50 ->
  (3 * len text < 10 * devanagari_chars text ->
   auto_detect_language E self text = Ok "hi"%string) /\
  (~ 3 * len text < 10 * devanagari_chars text ->
   detect_hinglish E self text = Ok true ->
   auto_detect_language E self text = Ok "hi"%string) /\
  (~ 3 * len text < 10 * devanagari_chars text ->
   detect_hinglish E self text = Ok false ->
   auto_detect_language E self text = Ok (current_language self)).
Proof.
  intros Hlen. unfold auto_detect_language.
  rewrite devanagari_count_eq, script_check_spec by assumption.
  destruct (Z.ltb_spec (3 * len text) (10 * devanagari_chars text)) as [Hs|Hs].
  - repeat split; intros; try reflexivity; lia.
  - split; [intros; lia|]. split; intros _ ->; reflexivity.
Qed.

Lemma auto_detect_language_decision_order_witness :
  len namaste_duniya < 2 ^ 50 /\
  3 * len namaste_duniya < 10 * devanagari_chars namaste_duniya /\
  auto_detect_language calm (this fresh) namaste_duniya = Ok "hi"%string.
Proof.
  assert (H1 : len namaste_duniya < 2 ^ 50) by (vm_compute; reflexivity).
  assert (H2 : 3 * len namaste_duniya < 10 * devanagari_chars namaste_duniya)
    by (vm_compute; reflexivity).
  split; [exact H1|]. split; [exact H2|].
  exact (proj1 (auto_detect_language_decision_order calm (this fresh) namaste_duniya H1) H2).
Defined.

(** C2 fails at exactly 30%: three Devanagari characters out of ten, no
    Hinglish keyword, and the answer is the session language "en". *)
Lemma exactly_thirty_percent_is_not_hindi :
  10 * devanagari_chars three_of_ten = 3 * len three_of_ten /\
  auto_detect_language calm (this fresh) three_of_ten = Ok "en"%string.
Proof. split; vm_compute; reflexivity. Qed.

(** C2, amended. When strictly more than 30% of the characters are
    Devanagari, [auto_detect_language] answers "hi" whatever the words
    are; at exactly 30% the script check does not fire and the answer is
    the one of the lexical check. *)
Theorem devanagari_majority_is_hindi (E : Env) (self : TextToSpeech) (text : str) :
  len text < 2 ^ 50 ->
  (3 * len text < 10 * devanagari_chars text ->
   auto_detect_language E self text = Ok "hi"%string) /\
  (3 * len text = 10 * devanagari_chars text ->
   auto_detect_language E self text
   = bindR (detect_hinglish E self text)
           (fun b => if b then Ok "hi"%string else Ok (current_language self))).
Proof.
  intros Hlen. unfold auto_detect_language.
  rewrite devanagari_count_eq, script_check_spec by assumption.
  split; intros Hs.
  - destruct (Z.ltb_spec (3 * len text) (10 * devanagari_chars text)); [reflexivity|lia].
  - destruct (Z.ltb_spec (3 * len text) (10 * devanagari_chars text)); [lia|reflexivity].
Qed.

Lemma devanagari_majority_is_hindi_witness :
  len namaste_duniya < 2 ^ 50 /\
  3 * len namaste_duniya < 10 * devanagari_chars namaste_duniya /\
  auto_detect_language calm (this fresh) namaste_duniya = Ok "hi"%string.
Proof.
  assert (H1 : len namaste_duniya < 2 ^ 50) by (vm_compute; reflexivity).
  assert (H2 : 3 * len namaste_duniya < 10 * devanagari_chars namaste_duniya)
    by (vm_compute; reflexivity).
  split; [exact H1|]. split; [exact H2|].
  exact (proj1 (devanagari_majority_is_hindi calm (this fresh) namaste_duniya H1) H2).
Defined.



(** C6. The language-detection functions always return a value: no
    exception, and in particular no division by zero, on any text; on the
    empty text and on whitespace-only text the script check and
    [detect_hinglish] answer false and [auto_detect_language] returns the
    session language. *)
Theorem language_detection_never_fails (E : Env) (self : TextToSpeech) (text : str) :
  (exists b, detect_hinglish E self text = Ok b)
  /\ (exists l, auto_detect_language E self text = Ok l)
  /\ int_gt_float (devanagari_chars []) (int_mul_float (len (@nil Z)) c03) = false
  /\ detect_hinglish E self [] = Ok false
  /\ auto_detect_language E self [] = Ok (current_language self)
  /\ (forallb isspace text = true ->
      int_gt_float (devanagari_chars text) (int_mul_float (len text) c03) = false
      /\ detect_hinglish E self text = Ok false
      /\ auto_detect_language E self text = Ok (current_language self)).
Proof.
  split; [apply detect_hinglish_total|].
  split; [apply auto_detect_language_total|].
  split; [reflexivity|]. split; [reflexivity|]. split; [reflexivity|].
  intros Hsp.
  assert (Hs : int_gt_float (devanagari_chars text) (int_mul_float (len text) c03) = false).
  { rewrite devanagari_chars_spaces by assumption.
    apply int_gt_float_zero_product. unfold len. lia. }
  assert (Hd : detect_hinglish E self text = Ok false)
    by (apply detect_hinglish_no_token, tokens_spaces, Hsp).
  split; [exact Hs|]. split; [exact Hd|].
  unfold auto_detect_language. rewrite devanagari_count_eq, Hs, Hd. reflexivity.
Qed.

Lemma language_detection_never_fails_witness :
  forallb isspace [32; 9; 10; 160; 8195] = true /\
  detect_hinglish calm (this fresh) [32; 9; 10; 160; 8195] = Ok false /\
  auto_detect_language calm (this fresh) [32; 9; 10; 160; 8195] = Ok "en"%string.
Proof.
  assert (H1 : forallb isspace [32; 9; 10; 160; 8195] = true) by reflexivity.
  pose proof (language_detection_never_fails calm (this fresh) [32; 9; 10; 160; 8195])
    as (_ & _ & _ & _ & _ & Hw).
  specialize (Hw H1) as (_ & Hd & Ha).
  split; [exact H1|]. split; [exact Hd|exact Ha].
Defined.

(** * The effects of the methods *)

Section Frame.

Variable E : Env.
Variable R : relation (gset string).
Hypothesis R_refl : forall x, R x x.
Hypothesis R_trans : forall x y z, R x y -> R y z -> R x z.

Lemma with_world_id s : with_world (files s) ([] ++ log s) s = s.
Proof using Type. destruct s; reflexivity. Qed.

Lemma effect_ret {A} P (a : A) : effect R P (ret a).
Proof using R_refl.
  intros s. exists (Ok a), (files s), []. split; [|split; [apply R_refl|constructor]].
  unfold ret. rewrite with_world_id. reflexivity.
Qed.

Lemma effect_lift {A} P (r : Res A) : effect R P (lift r).
Proof using R_refl.
  intros s. exists r, (files s), []. split; [|split; [apply R_refl|constructor]].
  unfold lift. rewrite with_world_id. reflexivity.
Qed.

Lemma effect_get_self P : effect R P get_self.
Proof using R_refl.
  intros s. exists (Ok (this s)), (files s), [].
  split; [|split; [apply R_refl|constructor]].
  unfold get_self. rewrite with_world_id. reflexivity.
Qed.

Lemma effect_dict_contains P a k : effect R P (dict_contains a k).
Proof using R_refl.
  intros s. eexists _, (files s), []. split; [|split; [apply R_refl|constructor]].
  unfold dict_contains. rewrite with_world_id. reflexivity.
Qed.

Lemma effect_path_exists P f : effect R P (path_exists f).
Proof using R_refl.
  intros s. eexists _, (files s), []. split; [|split; [apply R_refl|constructor]].
  unfold path_exists. rewrite with_world_id. reflexivity.
Qed.

Lemma effect_print (P : Event -> Prop) m : P (Printed m) -> effect R P (print m).
Proof using R_refl.
  intros HP s. exists (Ok tt), (files s), [Printed m].
  split; [reflexivity|]. split; [apply R_refl|]. repeat constructor. exact HP.
Qed.

Lemma effect_call (P : Event -> Prop) c : P (Called c) -> effect R P (call E c).
Proof using R_refl.
  intros HP s. unfold call.
  destruct (raises E (log s) c); eexists _, (files s), [Called c];
    (split; [reflexivity|split; [apply R_refl|repeat constructor; exact HP]]).
Qed.

Lemma effect_bind {A B} P (m : M A) (k : A -> M B) :
  effect R P m -> (forall a, effect R P (k a)) -> effect R P (bind m k).
Proof using R_trans.
  intros Hm Hk s. destruct (Hm s) as (r & fs & evs & Hr & HR & Hevs).
  unfold bind. rewrite Hr. destruct r as [a|e].
  - destruct (Hk a (with_world fs (evs ++ log s) s))
      as (r' & fs' & evs' & Hr' & HR' & Hevs').
    exists r', fs', (evs' ++ evs). rewrite Hr'. split; [|split].
    + cbn. rewrite <- app_assoc. reflexivity.
    + eapply R_trans; eauto.
    + apply Forall_app; auto.
  - exists (Raise e), fs, evs. auto.
Qed.

Lemma effect_try_except {A} P (body : M A) (handler : exn -> M A) :
  effect R P body -> (forall e, effect R P (handler e)) ->
  effect R P (try_except body handler).
Proof using R_trans.
  intros Hm Hk s. destruct (Hm s) as (r & fs & evs & Hr & HR & Hevs).
  unfold try_except. rewrite Hr. destruct r as [a|e].
  - exists (Ok a), fs, evs. auto.
  - destruct (Hk e (with_world fs (evs ++ log s) s))
      as (r' & fs' & evs' & Hr' & HR' & Hevs').
    exists r', fs', (evs' ++ evs). rewrite Hr'. split; [|split].
    + cbn. rewrite <- app_assoc. reflexivity.
    + eapply R_trans; eauto.
    + apply Forall_app; auto.
Qed.

Lemma effect_try_finally {A} P (body : M A) (final : M unit) :
  effect R P body -> effect R P final -> effect R P (try_finally body final).
Proof using R_trans.
  intros Hm Hf s. destruct (Hm s) as (r & fs & evs & Hr & HR & Hevs).
  unfold try_finally. rewrite Hr.
  destruct (Hf (with_world fs (evs ++ log s) s))
    as (r' & fs' & evs' & Hr' & HR' & Hevs').
  rewrite Hr'.
  assert (Hall : Forall P (evs' ++ evs)) by (apply Forall_app; auto).
  assert (HRR : R (files s) fs') by (eapply R_trans; eauto).
  destruct r' as [[]|e]; eexists _, fs', (evs' ++ evs);
    (split; [cbn; rewrite <- app_assoc; reflexivity|split; [exact HRR|exact Hall]]).
Qed.

Lemma effect_if {A} P (b : bool) (m1 m2 : M A) :
  effect R P m1 -> effect R P m2 -> effect R P (if b then m1 else m2).
Proof using Type. destruct b; auto. Qed.

Lemma effect_wait_polls (P : Event -> Prop) c n :
  P (Called c) -> P (Called sleep) -> effect R P (wait_polls E c n).
Proof using R_refl R_trans.
  intros Hc Hs. induction n as [|n IH]; cbn [wait_polls].
  - apply effect_call, Hc.
  - apply effect_bind; [apply effect_call, Hc|intros _].
    apply effect_bind; [apply effect_call, Hs|intros _]. exact IH.
Qed.

Lemma effect_wait_while_busy (P : Event -> Prop) c :
  P (Called c) -> P (Called sleep) -> effect R P (wait_while_busy E c).
Proof using R_refl R_trans.
  intros Hc Hs s. unfold wait_while_busy. apply effect_wait_polls; assumption.
Qed.

Lemma effect_weaken {A} (P Q : Event -> Prop) (m : M A) :
  (forall ev, P ev -> Q ev) -> effect R P m -> effect R Q m.
Proof using Type.
  intros HPQ Hm s. destruct (Hm s) as (r & fs & evs & Hr & HR & Hevs).
  exists r, fs, evs. split; [exact Hr|]. split; [exact HR|].
  eapply Forall_impl; eauto.
Qed.

Lemma effect_tts_save (P : Event -> Prop) text lang slow f :
  (forall X, R X ({[f]} ∪ X)) ->
  P (Called (gTTS_save text lang slow f)) ->
  effect R P (tts_save E text lang slow f).
Proof using R_refl.
  intros Hadd HP s. unfold tts_save.
  destruct (raises E (log s) _); [destruct (save_leaves_file E (log s))|];
    eexists _, _, [Called (gTTS_save text lang slow f)];
    (split; [reflexivity|split; [cbn; auto|repeat constructor; exact HP]]).
Qed.

Lemma effect_NamedTemporaryFile (P : Event -> Prop) :
  (forall f X, R X ({[f]} ∪ X)) ->
  P (Called mkstemp) -> (forall f, P (TempCreated f)) ->
  effect R P (NamedTemporaryFile E).
Proof using R_refl.
  intros Hadd HP HT s. unfold NamedTemporaryFile.
  destruct (raises E (log s) mkstemp).
  - eexists _, _, [Called mkstemp].
    split; [reflexivity|split; [cbn; auto|repeat constructor; exact HP]].
  - eexists _, _, [TempCreated _; Called mkstemp].
    split; [reflexivity|split; [cbn; auto|repeat constructor; auto]].
Qed.

Lemma effect_os_unlink (P : Event -> Prop) f :
  (forall X, R X (X ∖ {[f]})) ->
  P (Called (unlink f)) -> effect R P (os_unlink E f).
Proof using R_refl.
  intros Hdel HP s. unfold os_unlink.
  destruct (raises E (log s) _); [|destruct (bool_decide (f ∈ files s))];
    eexists _, _, [Called (unlink f)];
    (split; [reflexivity|split; [cbn; auto|repeat constructor; exact HP]]).
Qed.

(** Playback logs events of the audio device only. *)
Lemma _play_audio_file_effect f : effect R is_playback (_play_audio_file E f).
Proof using R_refl R_trans.
  unfold _play_audio_file.
  apply effect_bind; [apply effect_get_self|intros self].
  apply effect_if; [apply effect_print; exact I|].
  apply effect_try_except.
  - apply effect_bind; [apply effect_path_exists|intros found].
    apply effect_if; [apply effect_print; exact I|].
    apply effect_bind; [apply effect_call; exact I|intros _].
    apply effect_bind; [apply effect_call; exact I|intros _].
    apply effect_wait_while_busy; exact I.
  - intros e. apply effect_bind; [apply effect_print; exact I|intros _].
    apply effect_try_except.
    + apply effect_bind; [apply effect_call; exact I|intros _].
      apply effect_bind; [apply effect_call; exact I|intros _].
      apply effect_wait_while_busy; exact I.
    + intros e2. apply effect_print; exact I.
Qed.

End Frame.

Section Effects.

Variable E : Env.

(** Never raising, compositionally. *)

Lemma never_raises_ret {A} (a : A) : never_raises (ret a).
Proof. intros s. exists a. reflexivity. Qed.

Lemma never_raises_print m : never_raises (print m).
Proof. intros s. exists tt. reflexivity. Qed.

Lemma never_raises_get_self : never_raises get_self.
Proof. intros s. eexists. reflexivity. Qed.

Lemma never_raises_bind {A B} (m : M A) (k : A -> M B) :
  never_raises m -> (forall a, never_raises (k a)) -> never_raises (bind m k).
Proof.
  intros Hm Hk s. destruct (Hm s) as (a & Ha). unfold bind.
  destruct (m s) as [r s']. cbn in Ha. subst r. apply Hk.
Qed.

Lemma never_raises_try_except {A} (body : M A) (handler : exn -> M A) :
  (forall e, never_raises (handler e)) -> never_raises (try_except body handler).
Proof.
  intros Hh s. unfold try_except. destruct (body s) as [[a|e] s'].
  - exists a. reflexivity.
  - apply Hh.
Qed.

Lemma never_raises_if {A} (b : bool) (m1 m2 : M A) :
  never_raises m1 -> never_raises m2 -> never_raises (if b then m1 else m2).
Proof. destruct b; auto. Qed.

Lemma _play_audio_file_never_raises f : never_raises (_play_audio_file E f).
Proof.
  unfold _play_audio_file.
  apply never_raises_bind; [apply never_raises_get_self|intros self].
  apply never_raises_if; [apply never_raises_print|].
  apply never_raises_try_except. intros e.
  apply never_raises_bind; [apply never_raises_print|intros _].
  apply never_raises_try_except. intros e2. apply never_raises_print.
Qed.

(** Playback returns, logs events of the audio device and keeps the files. *)
Lemma _play_audio_file_spec f s :
  exists evs, _play_audio_file E f s = (Ok tt, with_world (files s) (evs ++ log s) s)
              /\ Forall is_playback evs.
Proof.
  destruct (_play_audio_file_effect E eq (@eq_refl _) (@eq_trans _) f s)
    as (r & fs & evs & Hr & Hfs & Hevs).
  destruct (_play_audio_file_never_raises f s) as ([] & Hok).
  rewrite Hr in Hok. cbn in Hok. subst r fs.
  exists evs. auto.
Qed.

End Effects.

(** * The facade *)

Section Facade.

Variable E : Env.

Lemma any_files_refl : forall x : gset string, any_files x x.
Proof. intros; exact I. Qed.

Lemma any_files_trans : forall x y z : gset string,
    any_files x y -> any_files y z -> any_files x z.
Proof. intros; exact I. Qed.

Lemma subseteq_files_refl : forall x : gset string, x ⊆ x.
Proof. set_solver. Qed.

Lemma subseteq_files_trans : forall x y z : gset string, x ⊆ y -> y ⊆ z -> x ⊆ z.
Proof. set_solver. Qed.

(** Decomposition of a method into the combinators of the monad. *)
Ltac ev_ok :=
  first [ exact I
        | intros ? ? ? Hev; first [discriminate Hev | injection Hev; congruence]
        | intros ? Hev; first [discriminate Hev | injection Hev; congruence] ].

Ltac rel_ok :=
  first [ exact any_files_refl | exact any_files_trans
        | exact subseteq_files_refl | exact subseteq_files_trans
        | intros; exact I | intros; set_solver ].

Ltac playback_ok :=
  let ev := fresh "ev" in let H := fresh "H" in
  intros ev H; destruct ev as [[]| |]; cbn in H; try contradiction; ev_ok.

Ltac eff :=
  lazymatch goal with
  | |- effect _ _ (bind _ _) => apply effect_bind; [rel_ok| |intros ?]
  | |- effect _ _ (try_except _ _) => apply effect_try_except; [rel_ok| |intros ?]
  | |- effect _ _ (try_finally _ _) => apply effect_try_finally; [rel_ok| |]
  | |- effect _ _ (if _ then _ else _) => apply effect_if
  | |- effect _ _ (ret _) => apply effect_ret; rel_ok
  | |- effect _ _ (lift _) => apply effect_lift; rel_ok
  | |- effect _ _ get_self => apply effect_get_self; rel_ok
  | |- effect _ _ (dict_contains _ _) => apply effect_dict_contains; rel_ok
  | |- effect _ _ (path_exists _) => apply effect_path_exists; rel_ok
  | |- effect _ _ (print _) => apply effect_print; [rel_ok|ev_ok]
  | |- effect _ _ (call _ _) => apply effect_call; [rel_ok|ev_ok]
  | |- effect _ _ (tts_save _ _ _ _ _) => apply effect_tts_save; [rel_ok|rel_ok|ev_ok]
  | |- effect _ _ (NamedTemporaryFile _) =>
      apply effect_NamedTemporaryFile; [rel_ok|rel_ok|ev_ok|intros ?; ev_ok]
  | |- effect _ _ (os_unlink _ _) => apply effect_os_unlink; [rel_ok|rel_ok|ev_ok]
  | |- effect ?R _ (_play_audio_file _ _) =>
      apply (effect_weaken R is_playback);
      [playback_ok|apply _play_audio_file_effect; rel_ok]
  end.

Lemma _generate_and_play_effect text language slow :
  effect any_files (synth_for language) (_generate_and_play E text language slow).
Proof. unfold _generate_and_play. repeat eff. Qed.

Lemma _generate_audio_effect text language slow filename :
  effect any_files (synth_for language) (_generate_audio E text language slow filename).
Proof. unfold _generate_audio. repeat eff. Qed.

Lemma _generate_and_play_never_raises text language slow :
  never_raises (_generate_and_play E text language slow).
Proof.
  apply never_raises_try_except. intros e.
  apply never_raises_bind; [apply never_raises_print|intros _; apply never_raises_ret].
Qed.

Lemma _generate_audio_never_raises text language slow filename :
  never_raises (_generate_audio E text language slow filename).
Proof.
  apply never_raises_try_except. intros e.
  apply never_raises_bind; [apply never_raises_print|intros _; apply never_raises_ret].
Qed.

(** The methods, reduced to their workers. *)

Lemma speak_eq text language slow s :
  speak E text language slow s
  = _generate_and_play E text (or_default language (current_language (this s)))
      (if_not_None slow (slow_speech (this s))) s.
Proof. reflexivity. Qed.

Lemma save_eq text filename language slow s :
  save E text filename language slow s
  = _generate_audio E text (or_default language (current_language (this s)))
      (if_not_None slow (slow_speech (this s))) filename s.
Proof. reflexivity. Qed.

Lemma speak_and_save_eq text filename language slow s :
  speak_and_save E text filename language slow s
  = (let* ok := _generate_audio E text (or_default language (current_language (this s)))
                  (if_not_None slow (slow_speech (this s))) filename in
     if ok
     then let* _ := (if _audio_initialized (this s)
                     then _play_audio_file E filename else ret tt) in
          ret true
     else ret false) s.
Proof. reflexivity. Qed.

Lemma speak_hinglish_eq text slow auto_detect s :
  exists l,
    (auto_detect = true -> auto_detect_language E (this s) text = Ok l)
    /\ (auto_detect = false -> l = "hi"%string)
    /\ speak_hinglish E text slow auto_detect s = speak E text (Some l) (Some slow) s.
Proof.
  unfold speak_hinglish, bind, get_self, lift, ret. destruct auto_detect.
  - destruct (auto_detect_language_total E (this s) text) as [l Hl].
    exists l. rewrite Hl. split; [auto|]. split; [discriminate|reflexivity].
  - exists "hi"%string. split; [discriminate|]. split; reflexivity.
Qed.

Lemma or_default_nonempty c d : c <> EmptyString -> or_default (Some c) d = c.
Proof. destruct c; [congruence|reflexivity]. Qed.

(** *** Language validation *)

Lemma supported_table s c :
  supported s c = bool_decide (is_Some (the_dict (supported_languages (this s)) s !! c)).
Proof. reflexivity. Qed.

Ltac unfold_run :=
  unfold _generate_and_play, _generate_audio, try_except, try_finally, bind,
    get_self, dict_contains, call, tts_save, NamedTemporaryFile, path_exists,
    os_unlink, print, ret; cbn -[_play_audio_file].

(** Symbolic execution of a method body, one external outcome at a time. *)
Ltac step_run :=
  match goal with
  | |- context [raises E ?l ?c] => destruct (raises E l c) eqn:?
  | |- context [save_leaves_file E ?l] => destruct (save_leaves_file E l) eqn:?
  | |- context [_play_audio_file E ?f ?s] =>
      let evs := fresh "evs" in let Hp := fresh "Hp" in let Hev := fresh "Hev" in
      destruct (_play_audio_file_spec E f s) as (evs & Hp & Hev); rewrite Hp
  | |- context [bool_decide (?f ∈ ?X)] =>
      first [ rewrite (bool_decide_eq_true_2 (f ∈ X)) by set_solver
            | destruct (bool_decide (f ∈ X)) eqn:? ]
  | |- context [_audio_initialized ?t] => destruct (_audio_initialized t) eqn:?
  end; cbn -[_play_audio_file].

(** An unsupported language is turned down before anything else happens. *)
Lemma _generate_and_play_unsupported text language slow s :
  supported s language = false ->
  _generate_and_play E text language slow s
  = (Ok false, add_log (Printed (msg_not_supported language)) s).
Proof.
  intros H. rewrite supported_table in H. unfold_run. rewrite H. reflexivity.
Qed.

Lemma _generate_audio_unsupported text language slow filename s :
  supported s language = false ->
  _generate_audio E text language slow filename s
  = (Ok false, add_log (Printed (msg_not_supported language)) s).
Proof.
  intros H. rewrite supported_table in H. unfold_run. rewrite H. reflexivity.
Qed.

(** The result of the workers is decided by the language check and the
    synthesis steps alone. *)
Lemma _generate_and_play_result text language slow s :
  fst (_generate_and_play E text language slow s)
  = Ok (supported s language && speak_synthesis_ok E text language slow s).
Proof.
  rewrite supported_table. unfold speak_synthesis_ok. unfold_run.
  destruct (bool_decide _); [|reflexivity]. cbn -[_play_audio_file].
  repeat step_run; reflexivity.
Qed.

Lemma _generate_audio_result text language slow filename s :
  fst (_generate_audio E text language slow filename s)
  = Ok (supported s language && save_synthesis_ok E text language slow filename s).
Proof.
  rewrite supported_table. unfold save_synthesis_ok. unfold_run.
  destruct (bool_decide _); [|reflexivity]. cbn -[_play_audio_file].
  repeat step_run; reflexivity.
Qed.

(** Whatever the workers request from the synthesis service is for a
    supported language. *)
Lemma _generate_and_play_synth text language slow s :
  exists r fs evs,
    _generate_and_play E text language slow s = (r, with_world fs (evs ++ log s) s)
    /\ Forall (synth_supported s) evs.
Proof.
  destruct (supported s language) eqn:Hs.
  - destruct (_generate_and_play_effect text language slow s)
      as (r & fs & evs & Hr & _ & Hevs).
    exists r, fs, evs. split; [exact Hr|].
    eapply Forall_impl; [exact Hevs|]. intros ev Hev t l sl Heq.
    rewrite (Hev t l sl Heq). exact Hs.
  - rewrite _generate_and_play_unsupported by assumption.
    exists (Ok false), (files s), [Printed (msg_not_supported language)].
    split; [reflexivity|]. repeat constructor. intros t l sl Heq. discriminate.
Qed.

Lemma _generate_audio_synth text language slow filename s :
  exists r fs evs,
    _generate_audio E text language slow filename s
    = (r, with_world fs (evs ++ log s) s)
    /\ Forall (synth_supported s) evs.
Proof.
  destruct (supported s language) eqn:Hs.
  - destruct (_generate_audio_effect text language slow filename s)
      as (r & fs & evs & Hr & _ & Hevs).
    exists r, fs, evs. split; [exact Hr|].
    eapply Forall_impl; [exact Hevs|]. intros ev Hev t l sl Heq.
    rewrite (Hev t l sl Heq). exact Hs.
  - rewrite _generate_audio_unsupported by assumption.
    exists (Ok false), (files s), [Printed (msg_not_supported language)].
    split; [reflexivity|]. repeat constructor. intros t l sl Heq. discriminate.
Qed.

Lemma speak_and_save_synth text filename language slow s :
  exists r fs evs,
    speak_and_save E text filename language slow s
    = (r, with_world fs (evs ++ log s) s)
    /\ Forall (synth_supported s) evs.
Proof.
  rewrite speak_and_save_eq. unfold bind.
  destruct (_generate_audio_synth text
              (or_default language (current_language (this s)))
              (if_not_None slow (slow_speech (this s))) filename s)
    as (r & fs & evs & Hr & Hevs).
  rewrite Hr. destruct r as [[|]|e].
  - destruct (_audio_initialized (this s)).
    + destruct (_play_audio_file_spec E filename (with_world fs (evs ++ log s) s))
        as (evs' & Hp & Hev').
      rewrite Hp. cbn. exists (Ok true), fs, (evs' ++ evs).
      split; [rewrite <- app_assoc; reflexivity|].
      apply Forall_app. split; [|exact Hevs].
      eapply Forall_impl; [exact Hev'|]. intros ev Hev t l sl ->. destruct Hev.
    + cbn. exists (Ok true), fs, evs. auto.
  - cbn. exists (Ok false), fs, evs. auto.
  - exists (Raise e), fs, evs. auto.
Qed.

(** *** One operation of a session *)

Lemma step_spec s op :
  exists t' h' fs evs,
    step E s op = {| this := t'; heap := h'; files := fs; log := evs ++ log s |}
    /\ supported_languages t' = supported_languages (this s)
    /\ (h' = heap s \/ h' = heap s ++ [table s])
    /\ (current_language t' = current_language (this s)
        \/ supported s (current_language t') = true)
    /\ Forall (synth_supported s) evs.
Proof.
  assert (Hworld : forall (r : Res bool) fs evs,
             Forall (synth_supported s) evs ->
             exists t' h' fs' evs',
               snd (r, with_world fs (evs ++ log s) s)
               = {| this := t'; heap := h'; files := fs'; log := evs' ++ log s |}
               /\ supported_languages t' = supported_languages (this s)
               /\ (h' = heap s \/ h' = heap s ++ [table s])
               /\ (current_language t' = current_language (this s)
                   \/ supported s (current_language t') = true)
               /\ Forall (synth_supported s) evs').
  { intros r fs evs Hevs. exists (this s), (heap s), fs, evs. cbn. auto 10. }
  destruct op as [c|b| |t l sl|t f l sl|t f l sl|t sl a]; cbn [step].
  - (* set_language *)
    unfold set_language, bind, get_self, dict_contains, put_self, ret.
    destruct (bool_decide (is_Some (the_dict (supported_languages (this s)) s !! c)))
      eqn:Hc; cbn.
    + eexists _, (heap s), (files s), []. split; [reflexivity|]. cbn.
      split; [reflexivity|]. split; [auto|]. split; [right; exact Hc|constructor].
    + exists (this s), (heap s), (files s), []. destruct s; cbn. auto 10.
  - (* set_speed *)
    unfold set_speed, bind, get_self, put_self. cbn.
    eexists _, (heap s), (files s), []. split; [reflexivity|]. cbn. auto 10.
  - (* get_supported_languages *)
    unfold get_supported_languages, bind, get_self, dict_copy. cbn.
    exists (this s), (heap s ++ [table s]), (files s), []. cbn. auto 10.
  - rewrite speak_eq.
    destruct (_generate_and_play_synth t (or_default l (current_language (this s)))
                (if_not_None sl (slow_speech (this s))) s) as (r & fs & evs & -> & Hevs).
    apply Hworld, Hevs.
  - rewrite save_eq.
    destruct (_generate_audio_synth t (or_default l (current_language (this s)))
                (if_not_None sl (slow_speech (this s))) f s) as (r & fs & evs & -> & Hevs).
    apply Hworld, Hevs.
  - destruct (speak_and_save_synth t f l sl s) as (r & fs & evs & -> & Hevs).
    apply Hworld, Hevs.
  - destruct (speak_hinglish_eq t sl a s) as (l & _ & _ & ->). rewrite speak_eq.
    destruct (_generate_and_play_synth t (or_default (Some l) (current_language (this s)))
                (if_not_None (Some sl) (slow_speech (this s))) s)
      as (r & fs & evs & -> & Hevs).
    apply Hworld, Hevs.
Qed.

Lemma the_dict_app a h d s :
  (a < length h)%nat -> heap s = h ++ [d] -> default ∅ (h !! a) = the_dict a s.
Proof.
  intros Ha Hh. unfold the_dict. rewrite Hh, lookup_app_l by assumption. reflexivity.
Qed.

(** An operation keeps the instance well formed and its table as it was. *)
Lemma step_table s op :
  well_formed s ->
  well_formed (step E s op) /\ table (step E s op) = table s.
Proof.
  intros Hwf. destruct (step_spec s op) as (t' & h' & fs & evs & -> & Ha & Hh & _ & _).
  unfold well_formed, table, the_dict in *. cbn. rewrite Ha.
  destruct Hh as [-> | ->].
  - auto.
  - rewrite length_app, lookup_app_l by assumption. split; [lia|reflexivity].
Qed.

Lemma run_table ops s :
  well_formed s ->
  well_formed (run E ops s) /\ table (run E ops s) = table s.
Proof.
  revert s. induction ops as [|op ops IH]; intros s Hwf; [auto|].
  cbn [run fold_left]. destruct (step_table s op Hwf) as [Hwf' Ht].
  destruct (IH _ Hwf') as [Hwf'' Ht'']. fold (run E ops (step E s op)).
  split; [assumption|congruence].
Qed.

Lemma supported_same_table s s' c : table s' = table s -> supported s' c = supported s c.
Proof. intros H. unfold supported. rewrite H. reflexivity. Qed.

Lemma step_valid_default s op :
  well_formed s -> valid_default s -> valid_default (step E s op).
Proof.
  intros Hwf Hv. unfold valid_default.
  rewrite (supported_same_table s) by (apply step_table, Hwf).
  destruct (step_spec s op) as (t' & h' & fs & evs & -> & _ & _ & [Hc|Hc] & _); cbn.
  - rewrite Hc. exact Hv.
  - exact Hc.
Qed.

Lemma run_valid_default ops s :
  well_formed s -> valid_default s -> valid_default (run E ops s).
Proof.
  revert s. induction ops as [|op ops IH]; intros s Hwf Hv; [assumption|].
  cbn [run fold_left]. apply IH;
    [apply step_table, Hwf|apply step_valid_default; assumption].
Qed.

(** Every synthesis request of a session is for a key of the table. *)
Lemma run_synth ops s text lang slow :
  well_formed s ->
  In (Called (gTTS_init text lang slow)) (log (run E ops s)) ->
  In (Called (gTTS_init text lang slow)) (log s) \/ supported s lang = true.
Proof.
  revert s. induction ops as [|op ops IH]; intros s Hwf Hin; [auto|].
  cbn [run fold_left] in Hin. fold (run E ops (step E s op)) in Hin.
  destruct (step_table s op Hwf) as [Hwf' Ht].
  destruct (IH _ Hwf' Hin) as [Hl|Hs].
  - destruct (step_spec s op) as (t' & h' & fs & evs & Hst & _ & _ & _ & Hevs).
    rewrite Hst in Hl. cbn in Hl. apply in_app_or in Hl as [Hnew|Hold]; [|auto].
    right. rewrite Forall_forall in Hevs.
    apply (Hevs _ (proj2 (list_elem_of_In _ _) Hnew) text lang slow eq_refl).
  - right. rewrite <- (supported_same_table s (step E s op)) by assumption. exact Hs.
Qed.

End Facade.

(** * Temporary files and synthesis requests *)

Section Cleanup.

Variable E : Env.

Ltac ev_ok :=
  first [ exact I
        | intros ? ? ? Hev; first [discriminate Hev | injection Hev; congruence]
        | intros ? Hev; first [discriminate Hev | injection Hev; congruence] ].

Ltac rel_ok :=
  first [ exact any_files_refl | exact any_files_trans
        | exact subseteq_files_refl | exact subseteq_files_trans
        | intros; exact I | intros; set_solver ].

Ltac playback_ok :=
  let ev := fresh "ev" in let H := fresh "H" in
  intros ev H; destruct ev as [[]| |]; cbn in H; try contradiction; ev_ok.

Ltac eff :=
  lazymatch goal with
  | |- effect _ _ (bind _ _) => apply effect_bind; [rel_ok| |intros ?]
  | |- effect _ _ (try_except _ _) => apply effect_try_except; [rel_ok| |intros ?]
  | |- effect _ _ (try_finally _ _) => apply effect_try_finally; [rel_ok| |]
  | |- effect _ _ (if _ then _ else _) => apply effect_if
  | |- effect _ _ (ret _) => apply effect_ret; rel_ok
  | |- effect _ _ get_self => apply effect_get_self; rel_ok
  | |- effect _ _ (path_exists _) => apply effect_path_exists; rel_ok
  | |- effect _ _ (print _) => apply effect_print; [rel_ok|ev_ok]
  | |- effect _ _ (call _ _) => apply effect_call; [rel_ok|ev_ok]
  | |- effect _ _ (tts_save _ _ _ _ _) => apply effect_tts_save; [rel_ok|rel_ok|ev_ok]
  | |- effect _ _ (NamedTemporaryFile _) =>
      apply effect_NamedTemporaryFile; [rel_ok|rel_ok|ev_ok|intros ?; ev_ok]
  | |- effect _ _ (os_unlink _ _) => apply effect_os_unlink; [rel_ok|rel_ok|ev_ok]
  | |- effect ?R _ (_play_audio_file _ _) =>
      apply (effect_weaken R is_playback);
      [playback_ok|apply _play_audio_file_effect; rel_ok]
  end.

Lemma _generate_and_play_eq text language slow :
  _generate_and_play E text language slow
  = try_except
      (let* self := get_self in
       let* known := dict_contains (supported_languages self) language in
       if negb known
       then let* _ := print (msg_not_supported language) in ret false
       else let* _ := call E (gTTS_init text language slow) in
            after_request E text language slow self)
      (fun e => let* _ := print (msg_error_generating e) in ret false).
Proof. reflexivity. Qed.

(** Synthesis and playback keep the temporary file in place and create
    no other. *)
Lemma save_and_play_spec text language slow self f s :
  f ∈ files s ->
  exists r fs evs,
    save_and_play E text language slow self f s = (r, with_world fs (evs ++ log s) s)
    /\ f ∈ fs /\ Forall not_temp evs.
Proof.
  intros Hf.
  assert (Heff : effect (fun X Y : gset string => X ⊆ Y) not_temp
                        (save_and_play E text language slow self f)).
  { unfold save_and_play. repeat eff. }
  destruct (Heff s) as (r & fs & evs & Hr & Hsub & Hevs).
  exists r, fs, evs. split; [exact Hr|]. split; [set_solver|exact Hevs].
Qed.

(** The cleanup always tries to delete the file, and never fails. *)
Lemma cleanup_spec f s :
  f ∈ files s ->
  exists fs evs,
    cleanup E f s = (Ok tt, with_world fs (evs ++ log s) s)
    /\ In (Called (unlink f)) evs
    /\ Forall not_temp evs
    /\ ((forall h, raises E h (unlink f) = None) -> f ∉ fs).
Proof.
  intros Hf. unfold cleanup, try_except, bind, path_exists, os_unlink, print, ret.
  rewrite (bool_decide_eq_true_2 _ Hf).
  destruct (raises E (log s) (unlink f)) as [e|] eqn:Hu.
  - exists (files s), [Printed (msg_cleanup_failed e); Called (unlink f)].
    split; [reflexivity|]. split; [cbn; auto|]. split.
    + repeat constructor; intros g Hg; discriminate.
    + intros Hnever. rewrite Hnever in Hu. discriminate.
  - rewrite (bool_decide_eq_true_2 _ Hf).
    exists (files s ∖ {[f]}), [Called (unlink f)].
    split; [reflexivity|]. split; [cbn; auto|]. split.
    + repeat constructor; intros g Hg; discriminate.
    + intros _ Hin. apply elem_of_difference in Hin as [_ Hn].
      apply Hn, elem_of_singleton. reflexivity.
Qed.

(** Once the synthesis object exists: whatever temporary file is
    created, its deletion is attempted, and it is gone unless
    [os.unlink] raised. *)
Lemma after_request_spec text language slow self s :
  exists r fs evs,
    after_request E text language slow self s = (r, with_world fs (evs ++ log s) s)
    /\ forall f, In (TempCreated f) evs ->
                 In (Called (unlink f)) evs
                 /\ ((forall h, raises E h (unlink f) = None) -> f ∉ fs).
Proof.
  unfold after_request, bind, NamedTemporaryFile, try_finally, ret.
  destruct (raises E (log s) mkstemp) as [e|].
  - exists (Raise e), (files s), [Called mkstemp]. split; [reflexivity|].
    intros f [Hf|[]]. discriminate.
  - set (f0 := tmp_name E (log s)).
    set (s2 := add_log (TempCreated f0) (add_file f0 (add_log (Called mkstemp) s))).
    destruct (save_and_play_spec text language slow self f0 s2)
      as (r & fs3 & evs3 & Hb & Hf3 & Hnt3).
    { unfold s2. cbn. set_solver. }
    rewrite Hb.
    destruct (cleanup_spec f0 (with_world fs3 (evs3 ++ log s2) s2))
      as (fs4 & evs4 & Hc & Hunl & Hnt4 & Hgone); [exact Hf3|].
    rewrite Hc.
    assert (Hkey : forall f,
               In (TempCreated f) ((evs4 ++ evs3) ++ [TempCreated f0; Called mkstemp]) ->
               In (Called (unlink f)) ((evs4 ++ evs3) ++ [TempCreated f0; Called mkstemp])
               /\ ((forall h, raises E h (unlink f) = None) -> f ∉ fs4)).
    { intros f Hin.
      assert (f = f0) as ->.
      { apply in_app_or in Hin as [Hin|Hin].
        - exfalso. apply in_app_or in Hin as [Hin|Hin].
          + rewrite Forall_forall in Hnt4.
            apply (Hnt4 _ (proj2 (list_elem_of_In _ _) Hin) f eq_refl).
          + rewrite Forall_forall in Hnt3.
            apply (Hnt3 _ (proj2 (list_elem_of_In _ _) Hin) f eq_refl).
        - destruct Hin as [Hin|[Hin|[]]]; [congruence|discriminate]. }
      split; [|exact Hgone].
      apply in_or_app. left. apply in_or_app. left. exact Hunl. }
    assert (Hlog : forall pre : list Event,
               pre ++ evs4 ++ evs3 ++ log s2
               = (pre ++ (evs4 ++ evs3) ++ [TempCreated f0; Called mkstemp]) ++ log s).
    { intros pre. unfold s2. cbn. rewrite <- !app_assoc. reflexivity. }
    destruct r as [[]|e].
    + exists (Ok true), fs4, ((evs4 ++ evs3) ++ [TempCreated f0; Called mkstemp]).
      split; [|exact Hkey].
      cbn. f_equal. unfold with_world. cbn. f_equal. apply (Hlog []).
    + exists (Raise e), fs4, ((evs4 ++ evs3) ++ [TempCreated f0; Called mkstemp]).
      split; [|exact Hkey].
      cbn. f_equal. unfold with_world. cbn. f_equal. apply (Hlog []).
Qed.


(** The first thing a worker does for a supported language is to ask
    the synthesis service for exactly that language. *)
Lemma _generate_and_play_request text language slow s :
  supported s language = true ->
  exists evs,
    log (snd (_generate_and_play E text language slow s))
    = evs ++ Called (gTTS_init text language slow) :: log s.
Proof.
  intros Hs. rewrite supported_table in Hs.
  rewrite _generate_and_play_eq.
  unfold try_except, bind, get_self, dict_contains, call, print, ret.
  rewrite Hs. cbn [negb].
  destruct (raises E (log s) (gTTS_init text language slow)) as [e|].
  - exists [Printed (msg_error_generating e)]. reflexivity.
  - destruct (after_request_spec text language slow (this s)
                (add_log (Called (gTTS_init text language slow)) s))
      as (r & fs & evs & Hr & _).
    rewrite Hr. destruct r as [b|e].
    + exists evs. reflexivity.
    + exists (Printed (msg_error_generating e) :: evs). reflexivity.
Qed.

Lemma _generate_audio_request text language slow filename s :
  supported s language = true ->
  exists evs,
    log (snd (_generate_audio E text language slow filename s))
    = evs ++ Called (gTTS_init text language slow) :: log s.
Proof.
  intros Hs. rewrite supported_table in Hs.
  unfold _generate_audio, try_except, bind, get_self, dict_contains, call,
    tts_save, print, ret.
  rewrite Hs. cbn [negb].
  destruct (raises E (log s) (gTTS_init text language slow)) as [e|].
  - exists [Printed (msg_error_saving e)]. reflexivity.
  - cbn. destruct (raises E _ (gTTS_save text language slow filename)) as [e|].
    + destruct (save_leaves_file E _);
        exists [Printed (msg_error_saving e);
                Called (gTTS_save text language slow filename)]; reflexivity.
    + exists [Called (gTTS_save text language slow filename)]. reflexivity.
Qed.

(** [speak_and_save] never raises and answers as [save] does. *)
Lemma speak_and_save_result text filename language slow s :
  fst (speak_and_save E text filename language slow s)
  = fst (save E text filename language slow s).
Proof.
  rewrite speak_and_save_eq, save_eq. unfold bind.
  pose proof (_generate_audio_result E text
                (or_default language (current_language (this s)))
                (if_not_None slow (slow_speech (this s))) filename s) as Hres.
  destruct (_generate_audio E text _ _ filename s) as [r s1]. cbn in Hres. subst r.
  destruct (_ && _); [|reflexivity].
  destruct (_audio_initialized (this s)); [|reflexivity].
  destruct (_play_audio_file_spec E filename s1) as (evs & -> & _). reflexivity.
Qed.

End Cleanup.

(** * Properties of the facade *)

(** A non-empty code outside the table stops the three entry points at
    the language check. *)
Lemma rejected_before_synthesis
      (E : Env) (text : str) (filename c : string) (slow : option bool) (s : State) :
  c <> EmptyString -> supported s c = false ->
  speak E text (Some c) slow s = (Ok false, add_log (Printed (msg_not_supported c)) s)
  /\ save E text filename (Some c) slow s
     = (Ok false, add_log (Printed (msg_not_supported c)) s)
  /\ speak_and_save E text filename (Some c) slow s
     = (Ok false, add_log (Printed (msg_not_supported c)) s).
Proof.
  intros Hc Hs.
  assert (Hsave : save E text filename (Some c) slow s
                  = (Ok false, add_log (Printed (msg_not_supported c)) s)).
  { rewrite save_eq, or_default_nonempty by assumption.
    apply _generate_audio_unsupported, Hs. }
  split; [|split; [exact Hsave|]].
  - rewrite speak_eq, or_default_nonempty by assumption.
    apply _generate_and_play_unsupported, Hs.
  - rewrite speak_and_save_eq. unfold bind.
    rewrite save_eq in Hsave. rewrite Hsave. reflexivity.
Qed.

(** C4 fails for the empty code: it is not a key of the table, yet
    [speak] answers true and the synthesis service is called, with the
    session language. *)
Lemma empty_code_is_not_rejected :
  supported fresh EmptyString = false /\
  fst (speak calm hello (Some EmptyString) None fresh) = Ok true /\
  In (Called (gTTS_init hello "en" false))
     (log (snd (speak calm hello (Some EmptyString) None fresh))).
Proof.
  split; [vm_compute; reflexivity|]. split; [vm_compute; reflexivity|].
  vm_compute. tauto.
Qed.

(** C4, amended. For every text and every non-empty code that is not a
    key of the table, [speak], [save] and [speak_and_save] answer false;
    all they do is print a diagnostic: the synthesis service is not
    called and no file is created. (An empty code counts as no code: the
    session language is used.) *)
Theorem unsupported_language_is_rejected
        (E : Env) (text : str) (filename c : string) (slow : option bool) (s : State) :
  c <> EmptyString -> supported s c = false ->
  let s' := add_log (Printed (msg_not_supported c)) s in
  speak E text (Some c) slow s = (Ok false, s')
  /\ save E text filename (Some c) slow s = (Ok false, s')
  /\ speak_and_save E text filename (Some c) slow s = (Ok false, s')
  /\ files s' = files s
  /\ (forall call, ~ In (Called call) [Printed (msg_not_supported c)])
  /\ speak E text (Some EmptyString) slow s = speak E text None slow s.
Proof.
  intros Hc Hs s'.
  destruct (rejected_before_synthesis E text filename c slow s Hc Hs)
    as (H1 & H2 & H3).
  split; [exact H1|]. split; [exact H2|]. split; [exact H3|].
  split; [reflexivity|]. split; [|reflexivity].
  intros call [H|[]]. discriminate.
Qed.

Lemma unsupported_language_is_rejected_witness :
  "xx"%string <> EmptyString /\ supported fresh "xx" = false /\
  save calm hello "out.mp3" (Some "xx"%string) None fresh
  = (Ok false, add_log (Printed (msg_not_supported "xx")) fresh).
Proof.
  assert (H1 : "xx"%string <> EmptyString) by discriminate.
  assert (H2 : supported fresh "xx" = false) by (vm_compute; reflexivity).
  split; [exact H1|]. split; [exact H2|].
  exact (proj1 (proj2 (unsupported_language_is_rejected
                         calm hello "out.mp3" "xx" None fresh H1 H2))).
Defined.

(** C5 fails for the empty code: [save] does not fail on it but replaces
    it by the session language "en". *)
Lemma empty_code_is_replaced_by_default :
  supported fresh EmptyString = false /\
  fst (save calm hello "out.mp3" (Some EmptyString) None fresh) = Ok true /\
  In (Called (gTTS_init hello "en" false))
     (log (snd (save calm hello "out.mp3" (Some EmptyString) None fresh))).
Proof.
  split; [vm_compute; reflexivity|]. split; [vm_compute; reflexivity|].
  vm_compute. tauto.
Qed.

(** C5, amended. [set_language c] answers true and makes [c] the session
    language when [c] is a key of the table, and answers false and
    changes nothing otherwise; the session language is a key of the
    table after construction and after every operation; every language
    the synthesis service is asked for is a key of the table; and a
    non-empty code that is not in the table makes the operation fail
    rather than being replaced. *)
Theorem session_language_is_supported (E : Env) :
  (forall c s, supported s c = true ->
     fst (set_language c s) = Ok true
     /\ current_language (this (snd (set_language c s))) = c
     /\ table (snd (set_language c s)) = table s)
  /\ (forall c s, supported s c = false -> set_language c s = (Ok false, s))
  /\ (forall s0, well_formed (snd (__init__ E s0))
                 /\ valid_default (snd (__init__ E s0))
                 /\ table (snd (__init__ E s0)) = languages_table)
  /\ (forall ops s, well_formed s -> valid_default s ->
        well_formed (run E ops s) /\ valid_default (run E ops s)
        /\ table (run E ops s) = table s)
  /\ (forall ops s text lang slow, well_formed s ->
        In (Called (gTTS_init text lang slow)) (log (run E ops s)) ->
        In (Called (gTTS_init text lang slow)) (log s) \/ supported s lang = true)
  /\ (forall text filename c slow s, c <> EmptyString -> supported s c = false ->
        fst (speak E text (Some c) slow s) = Ok false
        /\ fst (save E text filename (Some c) slow s) = Ok false
        /\ fst (speak_and_save E text filename (Some c) slow s) = Ok false).
Proof.
  split; [|split; [|split; [|split; [|split]]]].
  - intros c s Hs. rewrite supported_table in Hs.
    unfold set_language, bind, get_self, dict_contains, put_self, ret.
    rewrite Hs. cbn. auto.
  - intros c s Hs. rewrite supported_table in Hs.
    unfold set_language, bind, get_self, dict_contains, put_self, ret.
    rewrite Hs. reflexivity.
  - intros s0.
    assert (Hinit : exists b l,
               snd (__init__ E s0)
               = {| this := {| supported_languages := length (heap s0);
                               hinglish_keywords := keywords;
                               current_language := "en";
                               slow_speech := false;
                               _audio_initialized := b |};
                    heap := heap s0 ++ [languages_table];
                    files := files s0; log := l |}).
    { unfold __init__, _init_audio, bind, dict_new, put_self, try_except, call,
        get_self, print, ret. cbn.
      destruct (raises E (log s0) mixer_init); cbn; eauto. }
    destruct Hinit as (b & l & ->).
    assert (Ht : table {| this := {| supported_languages := length (heap s0);
                                     hinglish_keywords := keywords;
                                     current_language := "en";
                                     slow_speech := false;
                                     _audio_initialized := b |};
                          heap := heap s0 ++ [languages_table];
                          files := files s0; log := l |} = languages_table).
    { unfold table, the_dict. cbn. rewrite lookup_app_r by lia.
      rewrite Nat.sub_diag. reflexivity. }
    split; [|split; [|exact Ht]].
    + unfold well_formed. cbn. rewrite length_app. cbn. lia.
    + unfold valid_default, supported. rewrite Ht. vm_compute. reflexivity.
  - intros ops s Hwf Hv. destruct (run_table E ops s Hwf) as [H1 H2].
    split; [exact H1|]. split; [apply run_valid_default; assumption|exact H2].
  - intros ops s text lang slow Hwf. apply run_synth, Hwf.
  - intros text filename c slow s Hc Hs.
    destruct (rejected_before_synthesis E text filename c slow s Hc Hs)
      as (H1 & H2 & H3).
    rewrite H1, H2, H3. auto.
Qed.

Lemma session_language_is_supported_witness :
  well_formed fresh /\ valid_default fresh /\
  valid_default
    (run calm [op_set_language "xx"; op_speak hello None None; op_set_language "hi"]
         fresh).
Proof.
  assert (H1 : well_formed fresh) by (vm_compute; lia).
  assert (H2 : valid_default fresh) by (vm_compute; reflexivity).
  split; [exact H1|]. split; [exact H2|].
  pose proof (session_language_is_supported calm) as (_ & _ & _ & Hrun & _).
  exact (proj1 (proj2 (Hrun _ fresh H1 H2))).
Defined.

(** C7. The router runs only when asked: [speak_hinglish] with
    [auto_detect] passes the answer of [auto_detect_language] to [speak];
    [speak], [save] and [speak_and_save] with a code of their own hand
    exactly that code to the worker, and the session language when no
    code is given (an empty code counts as none), whatever the text is;
    for a supported code the request to the synthesis service carries
    that very code. *)
Theorem router_runs_only_when_asked
        (E : Env) (text : str) (filename : string) (slow : bool)
        (speed : option bool) (s : State) :
  (exists l, auto_detect_language E (this s) text = Ok l
             /\ speak_hinglish E text slow true s = speak E text (Some l) (Some slow) s)
  /\ (forall c, c <> EmptyString ->
        speak E text (Some c) speed s
        = _generate_and_play E text c (if_not_None speed (slow_speech (this s))) s
        /\ save E text filename (Some c) speed s
           = _generate_audio E text c (if_not_None speed (slow_speech (this s))) filename s)
  /\ speak E text (Some EmptyString) speed s = speak E text None speed s
  /\ save E text filename (Some EmptyString) speed s = save E text filename None speed s
  /\ speak E text None speed s
     = _generate_and_play E text (current_language (this s))
         (if_not_None speed (slow_speech (this s))) s
  /\ save E text filename None speed s
     = _generate_audio E text (current_language (this s))
         (if_not_None speed (slow_speech (this s))) filename s
  /\ (forall c, c <> EmptyString -> supported s c = true ->
        (exists evs, log (snd (speak E text (Some c) speed s))
                     = evs ++ Called (gTTS_init text c
                                        (if_not_None speed (slow_speech (this s))))
                           :: log s)
        /\ (exists evs, log (snd (save E text filename (Some c) speed s))
                        = evs ++ Called (gTTS_init text c
                                           (if_not_None speed (slow_speech (this s))))
                              :: log s)).
Proof.
  split; [|split; [|split; [|split; [|split; [|split]]]]].
  - destruct (speak_hinglish_eq E text slow true s) as (l & Hl & _ & Heq).
    exists l. auto.
  - intros c Hc. rewrite speak_eq, save_eq, or_default_nonempty by assumption. auto.
  - reflexivity.
  - reflexivity.
  - reflexivity.
  - reflexivity.
  - intros c Hc Hs. rewrite speak_eq, save_eq, or_default_nonempty by assumption.
    split; [apply _generate_and_play_request|apply _generate_audio_request]; exact Hs.
Qed.

Lemma router_runs_only_when_asked_witness :
  "en"%string <> EmptyString /\ supported fresh "en" = true /\
  auto_detect_language calm (this fresh) namaste_duniya = Ok "hi"%string /\
  exists evs, log (snd (speak calm namaste_duniya (Some "en"%string) None fresh))
              = evs ++ Called (gTTS_init namaste_duniya "en" false) :: log fresh.
Proof.
  assert (H1 : "en"%string <> EmptyString) by discriminate.
  assert (H2 : supported fresh "en" = true) by (vm_compute; reflexivity).
  split; [exact H1|]. split; [exact H2|]. split; [vm_compute; reflexivity|].
  pose proof (router_runs_only_when_asked calm namaste_duniya "out.mp3" false None fresh)
    as (_ & _ & _ & _ & _ & _ & Hreq).
  exact (proj1 (Hreq "en"%string H1 H2)).
Defined.

(** C8 fails for playback errors: when the audio device refuses the file
    in both playback strategies, [speak] still answers true. *)
Lemma playback_failure_still_succeeds :
  _audio_initialized (this (fresh_in broken_audio)) = true /\
  fst (speak broken_audio hello None None (fresh_in broken_audio)) = Ok true /\
  In (Printed (msg_alternative_failed pygame_error))
     (log (snd (speak broken_audio hello None None (fresh_in broken_audio)))).
Proof.
  split; [vm_compute; reflexivity|]. split; [vm_compute; reflexivity|].
  vm_compute. tauto.
Qed.

(** C8, amended. [speak], [save] and [speak_and_save] never let an
    exception out: they always answer a boolean. The answer is false when
    the language is not supported or a synthesis step (the [gTTS]
    constructor, the temporary file, [tts.save]) raises, and true
    otherwise: playback and cleanup errors are only reported by a
    message. The instance (session language, speed flag, readiness flag)
    and the language table are left as they were, so every later call
    behaves the same way. *)
Theorem failures_become_results
        (E : Env) (text : str) (filename : string) (language : option string)
        (slow : option bool) (s : State) :
  let lang := or_default language (current_language (this s)) in
  let speed := if_not_None slow (slow_speech (this s)) in
  fst (speak E text language slow s)
  = Ok (supported s lang && speak_synthesis_ok E text lang speed s)
  /\ fst (save E text filename language slow s)
     = Ok (supported s lang && save_synthesis_ok E text lang speed filename s)
  /\ fst (speak_and_save E text filename language slow s)
     = Ok (supported s lang && save_synthesis_ok E text lang speed filename s)
  /\ (this (snd (speak E text language slow s)) = this s
      /\ heap (snd (speak E text language slow s)) = heap s)
  /\ (this (snd (save E text filename language slow s)) = this s
      /\ heap (snd (save E text filename language slow s)) = heap s)
  /\ (this (snd (speak_and_save E text filename language slow s)) = this s
      /\ heap (snd (speak_and_save E text filename language slow s)) = heap s).
Proof.
  intros lang speed.
  assert (Hsave : fst (save E text filename language slow s)
                  = Ok (supported s lang && save_synthesis_ok E text lang speed filename s)).
  { rewrite save_eq. apply _generate_audio_result. }
  split; [rewrite speak_eq; apply _generate_and_play_result|].
  split; [exact Hsave|].
  split; [rewrite speak_and_save_result; exact Hsave|].
  clear Hsave. subst lang speed.
  split; [|split].
  - rewrite speak_eq.
    destruct (_generate_and_play_synth E text
                (or_default language (current_language (this s)))
                (if_not_None slow (slow_speech (this s))) s) as (r & fs & evs & -> & _).
    split; reflexivity.
  - rewrite save_eq.
    destruct (_generate_audio_synth E text
                (or_default language (current_language (this s)))
                (if_not_None slow (slow_speech (this s))) filename s)
      as (r & fs & evs & -> & _).
    split; reflexivity.
  - destruct (speak_and_save_synth E text filename language slow s)
      as (r & fs & evs & -> & _).
    split; reflexivity.
Qed.




(** A caller's changes to a dict at another address leave the table of
    the instance alone. *)
Lemma mutate_other a ops s :
  a <> supported_languages (this s) ->
  this (mutate a ops s) = this s
  /\ table (mutate a ops s) = table s
  /\ files (mutate a ops s) = files s
  /\ log (mutate a ops s) = log s.
Proof.
  intros Ha. revert s Ha. induction ops as [|op ops IH]; intros s Ha; [auto|].
  cbn [mutate fold_left]. fold (mutate a ops (snd (dict_apply a op s))).
  assert (Hstep : this (snd (dict_apply a op s)) = this s
                  /\ table (snd (dict_apply a op s)) = table s
                  /\ files (snd (dict_apply a op s)) = files s
                  /\ log (snd (dict_apply a op s)) = log s).
  { unfold dict_apply, table, the_dict. cbn.
    rewrite list_lookup_insert_ne by exact Ha. auto. }
  destruct Hstep as (H1 & H2 & H3 & H4).
  destruct (IH (snd (dict_apply a op s))) as (I1 & I2 & I3 & I4).
  { rewrite H1. exact Ha. }
  repeat split; congruence.
Qed.

(** [set_language] answers whether the code is supported. *)
Lemma set_language_result c s : fst (set_language c s) = Ok (supported s c).
Proof.
  rewrite supported_table.
  unfold set_language, bind, get_self, dict_contains, put_self, ret.
  destruct (bool_decide _); reflexivity.
Qed.

(** The model does see aliasing: a change made through the address the
    instance holds does change its table. *)
Lemma mutate_alias_changes_table :
  table (mutate (supported_languages (this fresh)) [Clear] fresh) = ∅
  /\ supported (mutate (supported_languages (this fresh)) [Clear] fresh) "en" = false.
Proof. split; reflexivity. Qed.

(** C10. [get_supported_languages] returns a copy of the table: a new
    dict with the same items. Whatever the caller then does to that dict,
    the table of the instance is unchanged, and [set_language], [speak]
    and [save] validate and answer exactly as if the returned dict had
    never been touched. *)
Theorem get_supported_languages_returns_a_copy
        (E : Env) (s : State) (ops : list DictOp) :
  well_formed s ->
  exists a s1,
    get_supported_languages s = (Ok a, s1)
    /\ a <> supported_languages (this s1)
    /\ the_dict a s1 = table s
    /\ table s1 = table s
    /\ table (mutate a ops s1) = table s
    /\ (forall c, supported (mutate a ops s1) c = supported s c)
    /\ (forall c, fst (set_language c (mutate a ops s1)) = fst (set_language c s1))
    /\ (forall text language slow,
          fst (speak E text language slow (mutate a ops s1))
          = fst (speak E text language slow s1))
    /\ (forall text filename language slow,
          fst (save E text filename language slow (mutate a ops s1))
          = fst (save E text filename language slow s1)).
Proof.
  intros Hwf. unfold well_formed in Hwf.
  exists (length (heap s)), (set_heap (heap s ++ [table s]) s).
  set (a := length (heap s)). set (s1 := set_heap (heap s ++ [table s]) s).
  assert (Hne : a <> supported_languages (this s1)) by (unfold a, s1; cbn; lia).
  assert (Ht1 : table s1 = table s).
  { unfold table, the_dict, s1. cbn. rewrite lookup_app_l by assumption. reflexivity. }
  destruct (mutate_other a ops s1 Hne) as (Hthis & Htab & Hfiles & Hlog).
  assert (Hsup : forall c, supported (mutate a ops s1) c = supported s1 c).
  { intros c. unfold supported. rewrite Htab. reflexivity. }
  split; [reflexivity|]. split; [exact Hne|]. split; [|split; [exact Ht1|split]].
  - unfold the_dict, s1, a. cbn. rewrite lookup_app_r by lia.
    rewrite Nat.sub_diag. reflexivity.
  - congruence.
  - split; [|split; [|split]].
    + intros c. rewrite Hsup. unfold supported. rewrite Ht1. reflexivity.
    + intros c. rewrite !set_language_result, Hsup. reflexivity.
    + intros text language slow. rewrite !speak_eq, !_generate_and_play_result.
      rewrite Hthis, Hsup. unfold speak_synthesis_ok. rewrite Hlog. reflexivity.
    + intros text filename language slow. rewrite !save_eq, !_generate_audio_result.
      rewrite Hthis, Hsup. unfold save_synthesis_ok. rewrite Hlog. reflexivity.
Qed.

Lemma get_supported_languages_returns_a_copy_witness :
  well_formed fresh /\
  exists a s1,
    get_supported_languages fresh = (Ok a, s1)
    /\ supported (mutate a [Clear; SetItem "xx" "Klingon"; DelItem "en"] s1) "en" = true
    /\ supported (mutate a [Clear; SetItem "xx" "Klingon"; DelItem "en"] s1) "xx" = false.
Proof.
  assert (H1 : well_formed fresh) by (vm_compute; lia).
  split; [exact H1|].
  destruct (get_supported_languages_returns_a_copy
              calm fresh [Clear; SetItem "xx" "Klingon"; DelItem "en"] H1)
    as (a & s1 & Hget & _ & _ & _ & _ & Hsup & _).
  exists a, s1. split; [exact Hget|]. rewrite !Hsup.
  split; vm_compute; reflexivity.
Defined.

(** * Further properties of the language router *)

Section RouterMore.

Variable E : Env.

Lemma lower_ascii_devanagari c : is_devanagari (lower_ascii c) = is_devanagari c.
Proof.
  unfold lower_ascii, is_devanagari.
  destruct (Z.leb_spec 65 c), (Z.leb_spec c 90); cbn; try reflexivity.
  rewrite (proj2 (Z.leb_gt 2304 (c + 32))), (proj2 (Z.leb_gt 2304 c)) by lia.
  reflexivity.
Qed.

Lemma devanagari_chars_lower text :
  devanagari_chars (map lower_ascii text) = devanagari_chars text.
Proof.
  unfold devanagari_chars, len. f_equal.
  induction text as [|c text IH]; [reflexivity|].
  cbn [map]. rewrite !filter_cons, lower_ascii_devanagari.
  destruct (decide (Is_true (is_devanagari c))); cbn [length]; congruence.
Qed.

Lemma lower_plain text :
  forallb plain_char text = true -> lower E text = map lower_ascii text.
Proof. intros H. unfold lower. rewrite H. reflexivity. Qed.

(** [detect_hinglish] only looks at the number of tokens and the number
    of keyword tokens. *)
Lemma detect_hinglish_by_counts self t1 t2 :
  len (tokens E t1) = len (tokens E t2) ->
  keyword_tokens self (tokens E t1) = keyword_tokens self (tokens E t2) ->
  detect_hinglish E self t1 = detect_hinglish E self t2.
Proof.
  intros Hl Hk. unfold detect_hinglish. fold (tokens E t1). fold (tokens E t2).
  rewrite !hinglish_count_eq, Hl, Hk. reflexivity.
Qed.

Lemma auto_detect_language_range self text :
  auto_detect_language E self text = Ok "hi"%string
  \/ auto_detect_language E self text = Ok (current_language self).
Proof.
  unfold auto_detect_language.
  destruct (int_gt_float _ _); [auto|].
  destruct (detect_hinglish_total E self text) as [[] ->]; cbn; auto.
Qed.

End RouterMore.

(** X1. Detection ignores the case of ASCII letters: two texts (of ASCII,
    Devanagari and whitespace characters) that differ only in letter case
    get the same answer from [detect_hinglish] and from
    [auto_detect_language]. *)
Theorem detection_ignores_ascii_case (E : Env) (self : TextToSpeech) (t1 t2 : str) :
  forallb plain_char t1 = true -> forallb plain_char t2 = true ->
  map lower_ascii t1 = map lower_ascii t2 ->
  detect_hinglish E self t1 = detect_hinglish E self t2
  /\ auto_detect_language E self t1 = auto_detect_language E self t2.
Proof.
  intros H1 H2 Heq.
  assert (Ht : tokens E t1 = tokens E t2).
  { unfold tokens. rewrite !lower_plain by assumption. congruence. }
  assert (Hd : detect_hinglish E self t1 = detect_hinglish E self t2).
  { apply detect_hinglish_by_counts; rewrite Ht; reflexivity. }
  split; [exact Hd|].
  unfold auto_detect_language. rewrite !devanagari_count_eq, Hd.
  rewrite <- (devanagari_chars_lower t1), <- (devanagari_chars_lower t2), Heq.
  assert (Hlen : len t1 = len t2).
  { unfold len. rewrite <- (length_map lower_ascii t1), Heq, length_map. reflexivity. }
  rewrite Hlen. reflexivity.
Qed.

Lemma detection_ignores_ascii_case_witness :
  forallb plain_char HAI_kya = true /\ forallb plain_char hai_kya = true /\
  map lower_ascii HAI_kya = map lower_ascii hai_kya /\
  detect_hinglish calm (this fresh) HAI_kya = detect_hinglish calm (this fresh) hai_kya.
Proof.
  assert (H1 : forallb plain_char HAI_kya = true) by reflexivity.
  assert (H2 : forallb plain_char hai_kya = true) by reflexivity.
  assert (H3 : map lower_ascii HAI_kya = map lower_ascii hai_kya) by reflexivity.
  split; [exact H1|]. split; [exact H2|]. split; [exact H3|].
  exact (proj1 (detection_ignores_ascii_case calm (this fresh) HAI_kya hai_kya H1 H2 H3)).
Defined.

(** X2. [detect_hinglish] ignores the order of the words and the amount
    of whitespace between them: two texts with the same tokens, in any
    order, get the same answer. *)
Theorem detect_hinglish_ignores_word_order (E : Env) (self : TextToSpeech) (t1 t2 : str) :
  tokens E t1 ≡ₚ tokens E t2 ->
  detect_hinglish E self t1 = detect_hinglish E self t2.
Proof.
  intros Hp. apply detect_hinglish_by_counts.
  - unfold len. rewrite (Permutation_length Hp). reflexivity.
  - unfold keyword_tokens, len.
    rewrite (Permutation_length (filter_Permutation _ _ _ Hp)). reflexivity.
Qed.

Lemma detect_hinglish_ignores_word_order_witness :
  tokens calm dog_hai ≡ₚ tokens calm hai_dog /\
  detect_hinglish calm (this fresh) dog_hai = detect_hinglish calm (this fresh) hai_dog.
Proof.
  assert (H : tokens calm dog_hai ≡ₚ tokens calm hai_dog).
  { change (tokens calm dog_hai) with [lit "dog"; lit "hai"].
    change (tokens calm hai_dog) with [lit "hai"; lit "dog"].
    apply perm_swap. }
  split; [exact H|].
  exact (detect_hinglish_ignores_word_order calm (this fresh) dog_hai hai_dog H).
Defined.

(** X3. The two ends of the lexical check: a text all of whose words are
    keywords (and that has a word) is Hinglish, and a text none of whose
    words is a keyword is not. *)
Theorem detect_hinglish_extremes (E : Env) (self : TextToSpeech) (text : str) :
  len (tokens E text) < 2 ^ 50 ->
  (tokens E text <> [] ->
   Forall (fun w => w ∈ hinglish_keywords self) (tokens E text) ->
   detect_hinglish E self text = Ok true)
  /\ (Forall (fun w => w ∉ hinglish_keywords self) (tokens E text) ->
      detect_hinglish E self text = Ok false).
Proof.
  intros Hlen. rewrite (detect_hinglish_spec E self text Hlen).
  unfold keyword_tokens, len. split.
  - intros Hne Hall.
    assert (Hf : filter (fun w => w ∈ hinglish_keywords self) (tokens E text)
                 = tokens E text).
    { clear Hne Hlen. induction Hall as [|w ws Hw _ IH]; [reflexivity|].
      rewrite filter_cons_True by assumption. congruence. }
    rewrite Hf. f_equal. apply Z.ltb_lt.
    destruct (tokens E text); [congruence|]. cbn [length]. lia.
  - intros Hnone.
    assert (Hf : filter (fun w => w ∈ hinglish_keywords self) (tokens E text) = []).
    { clear Hlen. induction Hnone as [|w ws Hw _ IH]; [reflexivity|].
      rewrite filter_cons_False by assumption. exact IH. }
    rewrite Hf. f_equal. apply Z.ltb_ge. cbn. lia.
Qed.

Lemma detect_hinglish_extremes_witness :
  len (tokens calm hai_kya) < 2 ^ 50 /\ tokens calm hai_kya <> [] /\
  detect_hinglish calm (this fresh) hai_kya = Ok true.
Proof.
  assert (H1 : len (tokens calm hai_kya) < 2 ^ 50) by (vm_compute; reflexivity).
  assert (H2 : tokens calm hai_kya <> []) by discriminate.
  split; [exact H1|]. split; [exact H2|].
  apply (proj1 (detect_hinglish_extremes calm (this fresh) hai_kya H1) H2).
  change (tokens calm hai_kya) with [lit "hai"; lit "kya"].
  repeat constructor; apply list_elem_of_In; vm_compute; tauto.
Defined.

(** * Further properties of the facade *)

Section FacadeMore.

Variable E : Env.

Lemma __init___spec s0 :
  __init__ E s0
  = (Ok tt,
     {| this := {| supported_languages := length (heap s0);
                   hinglish_keywords := keywords;
                   current_language := "en";
                   slow_speech := false;
                   _audio_initialized := no_exn (raises E (log s0) mixer_init) |};
        heap := heap s0 ++ [languages_table];
        files := files s0;
        log := match raises E (log s0) mixer_init with
               | None => [Called mixer_init]
               | Some e => [Printed (msg_audio_init_failed e); Called mixer_init]
               end ++ log s0 |}).
Proof.
  unfold __init__, _init_audio, try_except, bind, dict_new, put_self, get_self,
    call, print, ret. cbn.
  destruct (raises E (log s0) mixer_init); reflexivity.
Qed.

Lemma __init___table s0 :
  well_formed (snd (__init__ E s0)) /\ table (snd (__init__ E s0)) = languages_table.
Proof.
  rewrite __init___spec. unfold well_formed, table, the_dict. cbn.
  rewrite length_app. cbn. split; [lia|].
  rewrite lookup_app_r by lia. rewrite Nat.sub_diag. reflexivity.
Qed.

End FacadeMore.

(** X4. Construction never fails, whatever the audio device does: the
    instance starts with language "en", normal speed, the built-in table
    and keywords; it is ready for playback exactly when
    [pygame.mixer.init] did not raise, and a failure is reported by one
    warning.  No file is touched. *)
Theorem construction_absorbs_audio_failure (E : Env) (s0 : State) :
  let s := snd (__init__ E s0) in
  fst (__init__ E s0) = Ok tt
  /\ _audio_initialized (this s) = no_exn (raises E (log s0) mixer_init)
  /\ current_language (this s) = "en"%string
  /\ slow_speech (this s) = false
  /\ hinglish_keywords (this s) = keywords
  /\ table s = languages_table
  /\ files s = files s0
  /\ log s = match raises E (log s0) mixer_init with
             | None => [Called mixer_init]
             | Some e => [Printed (msg_audio_init_failed e); Called mixer_init]
             end ++ log s0.
Proof.
  cbv zeta. split; [rewrite __init___spec; reflexivity|].
  repeat split; try (rewrite __init___spec; reflexivity).
  apply __init___table.
Qed.

(** X5. [set_speed] changes the default speed and nothing else, and the
    default is what [speak] and [save] ask the synthesis service for
    when they are given no speed; a speed given with the call wins. *)
Theorem set_speed_sets_the_default_speed
        (E : Env) (text : str) (filename : string) (language : option string)
        (b : bool) (s : State) :
  let s1 := snd (set_speed b s) in
  let lang := or_default language (current_language (this s)) in
  supported s lang = true ->
  fst (set_speed b s) = Ok tt
  /\ s1 = {| this := {| supported_languages := supported_languages (this s);
                        hinglish_keywords := hinglish_keywords (this s);
                        current_language := current_language (this s);
                        slow_speech := b;
                        _audio_initialized := _audio_initialized (this s) |};
             heap := heap s; files := files s; log := log s |}
  /\ (exists evs, log (snd (speak E text language None s1))
                  = evs ++ Called (gTTS_init text lang b) :: log s)
  /\ (exists evs, log (snd (save E text filename language None s1))
                  = evs ++ Called (gTTS_init text lang b) :: log s)
  /\ (forall b', exists evs, log (snd (speak E text language (Some b') s1))
                             = evs ++ Called (gTTS_init text lang b') :: log s).
Proof.
  intros s1 lang Hs.
  assert (Hs1 : supported s1 lang = true) by exact Hs.
  split; [reflexivity|]. split; [reflexivity|].
  split; [|split; [|intros b']].
  - rewrite speak_eq. apply (_generate_and_play_request E text lang b s1 Hs1).
  - rewrite save_eq. apply (_generate_audio_request E text lang b filename s1 Hs1).
  - rewrite speak_eq. apply (_generate_and_play_request E text lang b' s1 Hs1).
Qed.

Lemma set_speed_sets_the_default_speed_witness :
  supported fresh (or_default None (current_language (this fresh))) = true
  /\ exists evs, log (snd (speak calm hello None None (snd (set_speed true fresh))))
                 = evs ++ Called (gTTS_init hello "en" true) :: log fresh.
Proof.
  assert (H : supported fresh (or_default None (current_language (this fresh))) = true)
    by reflexivity.
  split; [exact H|].
  exact (proj1 (proj2 (proj2
           (set_speed_sets_the_default_speed calm hello "out.mp3" None true fresh H)))).
Defined.

(** X6. A successful [set_language] changes the default language and
    nothing else, and the new default is the language [speak] and [save]
    ask the synthesis service for when they are given none. *)
Theorem set_language_sets_the_default_language
        (E : Env) (text : str) (filename : string) (c : string)
        (slow : option bool) (s : State) :
  let s1 := snd (set_language c s) in
  let speed := if_not_None slow (slow_speech (this s)) in
  supported s c = true ->
  fst (set_language c s) = Ok true
  /\ s1 = {| this := {| supported_languages := supported_languages (this s);
                        hinglish_keywords := hinglish_keywords (this s);
                        current_language := c;
                        slow_speech := slow_speech (this s);
                        _audio_initialized := _audio_initialized (this s) |};
             heap := heap s; files := files s; log := log s |}
  /\ (exists evs, log (snd (speak E text None slow s1))
                  = evs ++ Called (gTTS_init text c speed) :: log s)
  /\ (exists evs, log (snd (save E text filename None slow s1))
                  = evs ++ Called (gTTS_init text c speed) :: log s).
Proof.
  intros s1 speed Hs.
  assert (Hst : set_language c s
                = (Ok true,
                   {| this := {| supported_languages := supported_languages (this s);
                                 hinglish_keywords := hinglish_keywords (this s);
                                 current_language := c;
                                 slow_speech := slow_speech (this s);
                                 _audio_initialized := _audio_initialized (this s) |};
                      heap := heap s; files := files s; log := log s |})).
  { unfold set_language, bind, get_self, dict_contains, put_self, ret.
    rewrite supported_table in Hs. rewrite Hs. reflexivity. }
  subst s1. rewrite Hst. cbn [fst snd].
  match goal with |- _ /\ ?st = _ /\ _ => set (s1 := st) end.
  assert (Hs1 : supported s1 c = true) by exact Hs.
  split; [reflexivity|]. split; [reflexivity|].
  split.
  - rewrite speak_eq. exact (_generate_and_play_request E text c speed s1 Hs1).
  - rewrite save_eq. exact (_generate_audio_request E text c speed filename s1 Hs1).
Qed.

Lemma set_language_sets_the_default_language_witness :
  supported fresh "hi" = true
  /\ exists evs, log (snd (speak calm hello None None (snd (set_language "hi" fresh))))
                 = evs ++ Called (gTTS_init hello "hi" false) :: log fresh.
Proof.
  assert (H : supported fresh "hi" = true) by reflexivity.
  split; [exact H|].
  exact (proj1 (proj2 (proj2
           (set_language_sets_the_default_language calm hello "out.mp3" "hi" None fresh H)))).
Defined.

Section FilesMore.

Variable E : Env.

Ltac unfold_run :=
  unfold _generate_and_play, _generate_audio, try_except, try_finally, bind,
    get_self, dict_contains, call, tts_save, NamedTemporaryFile, path_exists,
    os_unlink, print, ret; cbn -[_play_audio_file].

Ltac step_run :=
  match goal with
  | |- context [raises E ?l ?c] => destruct (raises E l c) eqn:?
  | |- context [save_leaves_file E ?l] => destruct (save_leaves_file E l) eqn:?
  | |- context [_play_audio_file E ?f ?s] =>
      let evs := fresh "evs" in let Hp := fresh "Hp" in let Hev := fresh "Hev" in
      destruct (_play_audio_file_spec E f s) as (evs & Hp & Hev); rewrite Hp
  | |- context [bool_decide (?f ∈ ?X)] =>
      first [ rewrite (bool_decide_eq_true_2 (f ∈ X)) by set_solver
            | destruct (bool_decide (f ∈ X)) eqn:? ]
  | |- context [_audio_initialized ?t] => destruct (_audio_initialized t) eqn:?
  end; cbn -[_play_audio_file].

Ltac files_ok :=
  try (apply set_eq; intros ?);
  rewrite ?elem_of_difference, ?elem_of_union, ?elem_of_singleton;
  intuition (subst; first [contradiction | congruence | auto]).

Lemma grows_by_refl f X : grows_by f X X.
Proof. split; [reflexivity|apply union_subseteq_r]. Qed.

Lemma grows_by_trans f X Y Z : grows_by f X Y -> grows_by f Y Z -> grows_by f X Z.
Proof.
  intros [H1 H2] [H3 H4]. split; [etransitivity; eassumption|].
  intros x Hx. apply H4, elem_of_union in Hx as [Hx|Hx].
  - apply elem_of_union_l, Hx.
  - apply H2, Hx.
Qed.

Lemma _generate_audio_grows text language slow filename :
  effect (grows_by filename) synthesis_only
         (_generate_audio E text language slow filename).
Proof.
  unfold _generate_audio.
  apply effect_try_except; [apply grows_by_trans| |intros e].
  - apply effect_bind; [apply grows_by_trans|apply effect_get_self, grows_by_refl|intros self].
    apply effect_bind;
      [apply grows_by_trans|apply effect_dict_contains, grows_by_refl|intros known].
    apply effect_if.
    + apply effect_bind; [apply grows_by_trans| |intros _].
      * apply effect_print; [apply grows_by_refl|exact I].
      * apply effect_ret, grows_by_refl.
    + apply effect_bind; [apply grows_by_trans| |intros _].
      * apply effect_call; [apply grows_by_refl|exact I].
      * apply effect_bind; [apply grows_by_trans| |intros _].
        -- apply effect_tts_save; [apply grows_by_refl| |exact I].
           intros X. split; [apply union_subseteq_r|reflexivity].
        -- apply effect_ret, grows_by_refl.
  - apply effect_bind; [apply grows_by_trans| |intros _].
    + apply effect_print; [apply grows_by_refl|exact I].
    + apply effect_ret, grows_by_refl.
Qed.

Lemma _generate_audio_file text language slow filename s :
  fst (_generate_audio E text language slow filename s) = Ok true ->
  filename ∈ files (snd (_generate_audio E text language slow filename s)).
Proof.
  unfold_run. destruct (bool_decide _); cbn; [|discriminate].
  repeat step_run; first [discriminate | intros _; apply elem_of_union_l, elem_of_singleton; reflexivity].
Qed.

Lemma _generate_and_play_other_files text language slow g s :
  g <> tmp_name E (Called (gTTS_init text language slow) :: log s) ->
  g ∈ files (snd (_generate_and_play E text language slow s)) <-> g ∈ files s.
Proof.
  intros Hg. unfold_run. destruct (bool_decide _); cbn -[_play_audio_file];
    [|reflexivity].
  repeat step_run; files_ok.
Qed.

Lemma _generate_and_play_same_files text language slow s :
  let f := tmp_name E (Called (gTTS_init text language slow) :: log s) in
  (forall h, raises E h (unlink f) = None) ->
  f ∉ files s ->
  files (snd (_generate_and_play E text language slow s)) = files s.
Proof.
  intros f Hu Hf. subst f. unfold_run. destruct (bool_decide _); cbn -[_play_audio_file];
    [|reflexivity].
  repeat step_run;
    try match goal with
        | H : raises E _ (unlink _) = Some _ |- _ => rewrite Hu in H; discriminate H
        end;
    files_ok.
Qed.

End FilesMore.

(** X7. [save] never raises and leaves the instance alone; the only file
    it can create is the one it was given, it deletes none, and when it
    answers [True] that file exists.  It makes no temporary file and
    calls only the synthesis service. *)
Theorem save_writes_only_the_named_file
        (E : Env) (text : str) (filename : string) (language : option string)
        (slow : option bool) (s : State) :
  exists r fs evs,
    save E text filename language slow s = (Ok r, with_world fs (evs ++ log s) s)
    /\ files s ⊆ fs /\ fs ⊆ {[filename]} ∪ files s
    /\ (r = true -> filename ∈ fs)
    /\ Forall synthesis_only evs.
Proof.
  rewrite save_eq.
  set (lang := or_default language (current_language (this s))).
  set (speed := if_not_None slow (slow_speech (this s))).
  destruct (_generate_audio_grows E text lang speed filename s)
    as (r0 & fs & evs & Hr & [Hsub Hsup] & Hevs).
  destruct (_generate_audio_never_raises E text lang speed filename s) as [r Hok].
  pose proof (_generate_audio_file E text lang speed filename s) as Hfile.
  rewrite Hr in Hok, Hfile. cbn in Hok, Hfile. subst r0.
  exists r, fs, evs. split; [exact Hr|]. split; [exact Hsub|]. split; [exact Hsup|].
  split; [|exact Hevs]. intros ->. apply Hfile. reflexivity.
Qed.

(** X8. [speak] touches no file but its temporary one: a path that the
    system never hands out as a temporary name exists after the call
    exactly if it existed before. *)
Theorem speak_touches_only_its_temporary_file
        (E : Env) (text : str) (language : option string) (slow : option bool)
        (g : string) (s : State) :
  (forall h, tmp_name E h <> g) ->
  g ∈ files (snd (speak E text language slow s)) <-> g ∈ files s.
Proof.
  intros Hg. rewrite speak_eq. apply _generate_and_play_other_files.
  intros Heq. exact (Hg _ (eq_sym Heq)).
Qed.

Lemma speak_touches_only_its_temporary_file_witness :
  (forall h, tmp_name calm h <> "notes.txt"%string)
  /\ ("notes.txt"%string ∈ files (snd (speak calm hello None None fresh))
      <-> "notes.txt"%string ∈ files fresh).
Proof.
  assert (H : forall h, tmp_name calm h <> "notes.txt"%string)
    by (intros h; discriminate).
  split; [exact H|].
  exact (speak_touches_only_its_temporary_file calm hello None None "notes.txt" fresh H).
Defined.

(** X9. When temporary names are new and [os.unlink] does not fail,
    [speak] leaves the file system exactly as it found it, whether the
    synthesis and the playback succeed or not. *)
Theorem speak_leaves_the_files_as_found
        (E : Env) (text : str) (language : option string) (slow : option bool)
        (s : State) :
  (forall h f, raises E h (unlink f) = None) ->
  (forall h, tmp_name E h ∉ files s) ->
  files (snd (speak E text language slow s)) = files s.
Proof.
  intros Hu Hf. rewrite speak_eq. apply _generate_and_play_same_files.
  - intros h. apply Hu.
  - apply Hf.
Qed.

Lemma speak_leaves_the_files_as_found_witness :
  (forall h f, raises broken_audio h (unlink f) = None)
  /\ (forall h, tmp_name broken_audio h ∉ files (fresh_in broken_audio))
  /\ files (snd (speak broken_audio hello None None (fresh_in broken_audio)))
     = files (fresh_in broken_audio).
Proof.
  assert (H1 : forall h f, raises broken_audio h (unlink f) = None)
    by (intros h f; reflexivity).
  assert (H2 : forall h, tmp_name broken_audio h ∉ files (fresh_in broken_audio))
    by (intros h; apply not_elem_of_empty).
  split; [exact H1|]. split; [exact H2|].
  exact (speak_leaves_the_files_as_found broken_audio hello None None
           (fresh_in broken_audio) H1 H2).
Defined.

Section PlaybackMore.

Variable E : Env.

Lemma _play_audio_file_off f s :
  _audio_initialized (this s) = false ->
  _play_audio_file E f s = (Ok tt, add_log (Printed msg_playback_unavailable) s).
Proof.
  intros H. unfold _play_audio_file, bind, get_self. rewrite H. reflexivity.
Qed.

Lemma _play_audio_file_missing f s :
  _audio_initialized (this s) = true -> f ∉ files s ->
  _play_audio_file E f s = (Ok tt, add_log (Printed (msg_file_not_found f)) s).
Proof.
  intros H Hf. unfold _play_audio_file, try_except, bind, get_self, path_exists.
  rewrite H. cbn [negb]. rewrite (bool_decide_eq_false_2 _ Hf). reflexivity.
Qed.

Lemma _play_audio_file_eq f s :
  _audio_initialized (this s) = true -> f ∈ files s ->
  _play_audio_file E f s
  = try_except (first_playback E f)
      (fun e => let* _ := print (msg_error_playing e) in
                try_except (second_playback E f)
                           (fun e2 => print (msg_alternative_failed e2))) s.
Proof.
  intros H Hf.
  unfold _play_audio_file, first_playback, second_playback, try_except, bind,
    get_self, path_exists.
  rewrite H. cbn [negb]. rewrite (bool_decide_eq_true_2 _ Hf). reflexivity.
Qed.

(** A call followed by more: the call is logged first, whatever happens. *)
Lemma call_then {A} (P : Event -> Prop) c (k : unit -> M A) s :
  (forall a, effect eq P (k a)) ->
  exists r evs,
    bind (call E c) k s = (r, with_world (files s) ((evs ++ [Called c]) ++ log s) s)
    /\ Forall P evs.
Proof.
  intros Hk. unfold bind, call. destruct (raises E (log s) c) as [e|].
  - exists (Raise e), []. split; [reflexivity|constructor].
  - destruct (Hk tt (add_log (Called c) s)) as (r & fs & evs & Hr & <- & Hevs).
    exists r, evs. rewrite Hr. split; [|exact Hevs].
    unfold with_world. cbn. rewrite <- app_assoc. reflexivity.
Qed.

Lemma first_playback_spec f s :
  exists r evs,
    first_playback E f s
    = (r, with_world (files s) ((evs ++ [Called (music_load f)]) ++ log s) s)
    /\ Forall first_strategy evs.
Proof.
  apply call_then. intros _.
  apply effect_bind; [apply @eq_trans| |intros _].
  - apply effect_call; [reflexivity|]. left. reflexivity.
  - apply effect_wait_while_busy; [reflexivity|apply @eq_trans| |].
    + right. left. reflexivity.
    + right. right. reflexivity.
Qed.

Lemma second_playback_spec f s :
  exists r evs,
    second_playback E f s
    = (r, with_world (files s) ((evs ++ [Called (Sound_init f)]) ++ log s) s)
    /\ Forall second_strategy evs.
Proof.
  apply call_then. intros _.
  apply effect_bind; [apply @eq_trans| |intros _].
  - apply effect_call; [reflexivity|]. left. reflexivity.
  - apply effect_wait_while_busy; [reflexivity|apply @eq_trans| |].
    + right. left. reflexivity.
    + right. right. left. reflexivity.
Qed.

(** The two ways a playback of an existing file can go. *)
Lemma _play_audio_file_shape f s :
  _audio_initialized (this s) = true -> f ∈ files s ->
  exists evs1,
    Forall first_strategy evs1
    /\ (_play_audio_file E f s
        = (Ok tt, with_world (files s) ((evs1 ++ [Called (music_load f)]) ++ log s) s)
        \/ exists e evs2,
             Forall second_strategy evs2
             /\ _play_audio_file E f s
                = (Ok tt,
                   with_world (files s)
                     ((evs2 ++ Called (Sound_init f) :: Printed (msg_error_playing e)
                            :: evs1 ++ [Called (music_load f)]) ++ log s) s)).
Proof.
  intros H Hf. pose proof (_play_audio_file_eq f s H Hf) as Heq.
  destruct (first_playback_spec f s) as (r1 & evs1 & Hr1 & Hev1).
  exists evs1. split; [exact Hev1|].
  unfold try_except at 1 in Heq. rewrite Hr1 in Heq.
  destruct r1 as [[]|e]; [left; exact Heq|].
  right. exists e. unfold bind at 1, print in Heq. cbv beta iota in Heq.
  set (s2 := add_log (Printed (msg_error_playing e)) _) in Heq.
  destruct (second_playback_spec f s2) as (r2 & evs2 & Hr2 & Hev2).
  unfold try_except in Heq. rewrite Hr2 in Heq. destruct r2 as [[]|e2].
  - exists evs2. split; [exact Hev2|]. rewrite Heq. unfold with_world, s2. cbn.
    repeat (rewrite <- ?app_assoc; cbn). reflexivity.
  - exists (Printed (msg_alternative_failed e2) :: evs2). split.
    + constructor; [|exact Hev2]. right. right. right. exists e2. reflexivity.
    + rewrite Heq. unfold print, add_log, with_world, s2. cbn.
      repeat (rewrite <- ?app_assoc; cbn). reflexivity.
Qed.

Lemma Forall_In {A} (P : A -> Prop) l x : Forall P l -> In x l -> P x.
Proof. intros H Hin. exact (proj1 (List.Forall_forall P l) H x Hin). Qed.

End PlaybackMore.

Ltac in_cases :=
  repeat match goal with
    | H : In _ (_ ++ _) |- _ => apply in_app_or in H; destruct H as [H|H]
    | H : In _ (_ :: _) |- _ => destruct H as [H|H]
    | H : In _ [] |- _ => destruct H
    | H : In _ ?l, Hall : Forall _ ?l |- _ => apply (Forall_In _ _ _ Hall) in H
    | H : first_strategy _ |- _ => destruct H as [H|[H|H]]
    | H : second_strategy _ |- _ => destruct H as [H|[H|[H|[? H]]]]
    | H : ex _ |- _ => destruct H as [? H]
    end;
  try discriminate.

(** What a playback of an existing file always does. *)
Lemma playback_shape_facts (E : Env) f s evs :
  _audio_initialized (this s) = true -> f ∈ files s ->
  _play_audio_file E f s = (Ok tt, with_world (files s) (evs ++ log s) s) ->
  In (Called (music_load f)) evs
  /\ forall g, In (Called (music_load g)) evs \/ In (Called (Sound_init g)) evs -> g = f.
Proof.
  intros Hflag Hf Hp.
  destruct (_play_audio_file_shape E f s Hflag Hf)
    as (evs1 & Hev1 & [Hr|(e & evs2 & Hev2 & Hr)]);
    rewrite Hr in Hp; injection Hp as Hp; apply app_inv_tail in Hp; subst evs.
  - split; [apply in_or_app; right; left; reflexivity|].
    intros g [H|H]; in_cases. congruence.
  - split; [apply in_or_app; right; right; right; apply in_or_app; right; left;
            reflexivity|].
    intros g [H|H]; in_cases; congruence.
Qed.

(** X10. Playback never raises and never touches a file.  Without an
    initialised mixer, or when the file is missing, it only prints a
    message.  Otherwise it loads the file into the music player; the
    second strategy ([pygame.mixer.Sound]) is tried exactly when the
    first one failed, and both are only ever given the file asked for. *)
Theorem playback_falls_back_once (E : Env) (f : string) (s : State) :
  exists evs,
    _play_audio_file E f s = (Ok tt, with_world (files s) (evs ++ log s) s)
    /\ (_audio_initialized (this s) = false ->
        evs = [Printed msg_playback_unavailable])
    /\ (_audio_initialized (this s) = true -> f ∉ files s ->
        evs = [Printed (msg_file_not_found f)])
    /\ (_audio_initialized (this s) = true -> f ∈ files s ->
        In (Called (music_load f)) evs)
    /\ (In (Called (Sound_init f)) evs
        <-> exists e, In (Printed (msg_error_playing e)) evs)
    /\ (forall e, In (Printed (msg_alternative_failed e)) evs ->
                  In (Called (Sound_init f)) evs)
    /\ (forall g, In (Called (music_load g)) evs \/ In (Called (Sound_init g)) evs ->
                  g = f).
Proof.
  destruct (_audio_initialized (this s)) eqn:Hflag.
  - destruct (decide (f ∈ files s)) as [Hf|Hf].
    + destruct (_play_audio_file_shape E f s Hflag Hf)
        as (evs1 & Hev1 & [Hr|(e & evs2 & Hev2 & Hr)]).
      * exists (evs1 ++ [Called (music_load f)]). split; [exact Hr|].
        split; [discriminate|]. split; [contradiction|].
        split; [intros _ _; apply in_or_app; right; left; reflexivity|].
        split; [split; intros H; in_cases|].
        split; [intros e H; in_cases|].
        intros g [H|H]; in_cases. congruence.
      * exists (evs2 ++ Called (Sound_init f) :: Printed (msg_error_playing e)
                     :: evs1 ++ [Called (music_load f)]).
        split; [exact Hr|].
        split; [discriminate|]. split; [contradiction|].
        assert (Hsound : In (Called (Sound_init f))
                            (evs2 ++ Called (Sound_init f)
                                  :: Printed (msg_error_playing e)
                                  :: evs1 ++ [Called (music_load f)]))
          by (apply in_or_app; right; left; reflexivity).
        split; [intros _ _; apply in_or_app; right; right; right;
                apply in_or_app; right; left; reflexivity|].
        split; [split; [intros _; exists e; apply in_or_app; right; right; left;
                        reflexivity|intros _; exact Hsound]|].
        split; [intros e2 _; exact Hsound|].
        intros g [H|H]; in_cases; congruence.
    + exists [Printed (msg_file_not_found f)].
      split; [apply _play_audio_file_missing; assumption|].
      split; [discriminate|]. split; [reflexivity|]. split; [contradiction|].
      split; [split; intros H; in_cases|].
      split; [intros e H; in_cases|].
      intros g [H|H]; in_cases.
  - exists [Printed msg_playback_unavailable].
    split; [apply _play_audio_file_off; assumption|].
    split; [reflexivity|]. split; [discriminate|]. split; [discriminate|].
    split; [split; intros H; in_cases|].
    split; [intros e H; in_cases|].
    intros g [H|H]; in_cases.
Qed.

Section SessionMore.

Variable E : Env.

Ltac unfold_run :=
  unfold _generate_and_play, _generate_audio, try_except, try_finally, bind,
    get_self, dict_contains, call, tts_save, NamedTemporaryFile, path_exists,
    os_unlink, print, ret; cbn -[_play_audio_file].

Ltac step_run :=
  match goal with
  | |- context [raises E ?l ?c] => destruct (raises E l c) eqn:?
  | |- context [save_leaves_file E ?l] => destruct (save_leaves_file E l) eqn:?
  | |- context [bool_decide (?f ∈ ?X)] => destruct (bool_decide (f ∈ X)) eqn:?
  end; cbn -[_play_audio_file].

(** The calls among the events logged so far are synthesis and file
    calls, not calls to the audio device. *)
Ltac quiet_log :=
  let c := fresh "c" in let Hc := fresh "Hc" in let Hin := fresh "Hin" in
  intros c Hc Hin; cbn in Hin;
  repeat (destruct Hin as [Hin|Hin];
          [first [discriminate Hin | injection Hin as <-; destruct Hc]|]);
  exact Hin.

Lemma _generate_and_play_quiet text language slow s :
  _audio_initialized (this s) = false ->
  forall c, is_audio_call c ->
            In (Called c) (log (snd (_generate_and_play E text language slow s))) ->
            In (Called c) (log s).
Proof.
  intros Hflag. unfold_run. rewrite Hflag.
  destruct (bool_decide _); cbn -[_play_audio_file]; [|quiet_log].
  repeat step_run; quiet_log.
Qed.

Lemma _generate_audio_quiet text language slow filename s :
  forall c, is_audio_call c ->
            In (Called c) (log (snd (_generate_audio E text language slow filename s))) ->
            In (Called c) (log s).
Proof.
  unfold_run. destruct (bool_decide _); cbn -[_play_audio_file]; [|quiet_log].
  repeat step_run; quiet_log.
Qed.

Lemma speak_and_save_quiet text filename language slow s :
  _audio_initialized (this s) = false ->
  forall c, is_audio_call c ->
            In (Called c) (log (snd (speak_and_save E text filename language slow s))) ->
            In (Called c) (log s).
Proof.
  intros Hflag c Hc. rewrite speak_and_save_eq. unfold bind at 1.
  pose proof (_generate_audio_quiet text
                (or_default language (current_language (this s)))
                (if_not_None slow (slow_speech (this s))) filename s c Hc) as Hq.
  destruct (_generate_audio E text _ _ filename s) as [[[]|e] s1];
    rewrite ?Hflag; exact Hq.
Qed.

(** No operation changes the keyword list, the readiness flag or the
    address of the table. *)
Lemma step_settings s op :
  hinglish_keywords (this (step E s op)) = hinglish_keywords (this s)
  /\ _audio_initialized (this (step E s op)) = _audio_initialized (this s)
  /\ supported_languages (this (step E s op)) = supported_languages (this s).
Proof.
  destruct op as [c|b| |t l sl|t f l sl|t f l sl|t sl a]; cbn [step].
  - unfold set_language, bind, get_self, dict_contains, put_self, ret.
    destruct (bool_decide _); cbn; auto.
  - cbn. auto.
  - cbn. auto.
  - rewrite speak_eq.
    destruct (_generate_and_play_synth E t (or_default l (current_language (this s)))
                (if_not_None sl (slow_speech (this s))) s) as (r & fs & evs & -> & _).
    cbn. auto.
  - rewrite save_eq.
    destruct (_generate_audio_synth E t (or_default l (current_language (this s)))
                (if_not_None sl (slow_speech (this s))) f s) as (r & fs & evs & -> & _).
    cbn. auto.
  - destruct (speak_and_save_synth E t f l sl s) as (r & fs & evs & -> & _).
    cbn. auto.
  - destruct (speak_hinglish_eq E t sl a s) as (l & _ & _ & ->). rewrite speak_eq.
    destruct (_generate_and_play_synth E t
                (or_default (Some l) (current_language (this s)))
                (if_not_None (Some sl) (slow_speech (this s))) s)
      as (r & fs & evs & -> & _).
    cbn. auto.
Qed.

Lemma run_settings ops s :
  hinglish_keywords (this (run E ops s)) = hinglish_keywords (this s)
  /\ _audio_initialized (this (run E ops s)) = _audio_initialized (this s)
  /\ supported_languages (this (run E ops s)) = supported_languages (this s).
Proof.
  revert s. induction ops as [|op ops IH]; intros s; [auto|].
  cbn [run fold_left]. fold (run E ops (step E s op)).
  destruct (IH (step E s op)) as (H1 & H2 & H3).
  destruct (step_settings s op) as (K1 & K2 & K3).
  repeat split; congruence.
Qed.

Lemma step_quiet s op :
  _audio_initialized (this s) = false ->
  forall c, is_audio_call c ->
            In (Called c) (log (step E s op)) -> In (Called c) (log s).
Proof.
  intros Hflag c Hc.
  destruct op as [l|b| |t l sl|t f l sl|t f l sl|t sl a]; cbn [step].
  - unfold set_language, bind, get_self, dict_contains, put_self, ret.
    destruct (bool_decide _); cbn; auto.
  - cbn. auto.
  - cbn. auto.
  - rewrite speak_eq. apply _generate_and_play_quiet; assumption.
  - rewrite save_eq. apply _generate_audio_quiet; assumption.
  - apply speak_and_save_quiet; assumption.
  - destruct (speak_hinglish_eq E t sl a s) as (l & _ & _ & ->). rewrite speak_eq.
    apply _generate_and_play_quiet; assumption.
Qed.

Lemma detect_hinglish_keywords self self' text :
  hinglish_keywords self' = hinglish_keywords self ->
  detect_hinglish E self' text = detect_hinglish E self text.
Proof. intros H. unfold detect_hinglish. rewrite H. reflexivity. Qed.

End SessionMore.

(** X11. Without an initialised mixer no operation of a session ever
    calls the audio device: it is asked neither to load, to play, nor
    whether it is busy. *)
Theorem no_playback_without_mixer (E : Env) (ops : list (Op)) (s : State) (c : Call) :
  _audio_initialized (this s) = false ->
  is_audio_call c ->
  In (Called c) (log (run E ops s)) -> In (Called c) (log s).
Proof.
  revert s. induction ops as [|op ops IH]; intros s Hflag Hc Hin; [exact Hin|].
  cbn [run fold_left] in Hin. fold (run E ops (step E s op)) in Hin.
  apply (step_quiet E s op Hflag c Hc). apply IH; [|exact Hc|exact Hin].
  destruct (step_settings E s op) as (_ & -> & _). exact Hflag.
Qed.

Lemma no_playback_without_mixer_witness :
  _audio_initialized (this (fresh_in no_mixer)) = false
  /\ is_audio_call music_play
  /\ ~ In (Called music_play)
          (log (run no_mixer [op_speak hello None None;
                              op_speak_and_save hello "out.mp3" None None]
                    (fresh_in no_mixer))).
Proof.
  assert (H1 : _audio_initialized (this (fresh_in no_mixer)) = false) by reflexivity.
  split; [exact H1|]. split; [exact I|]. intros Hin.
  apply (no_playback_without_mixer no_mixer _ (fresh_in no_mixer) music_play H1 I) in Hin.
  cbn in Hin. destruct Hin as [Hin|[Hin|[]]]; discriminate Hin.
Defined.

(** X12. A session never changes the keyword list or the readiness of
    the audio device, so [detect_hinglish] gives the same answer for a
    text at every point of the session. *)
Theorem session_keeps_the_detector (E : Env) (ops : list Op) (s : State) (text : str) :
  hinglish_keywords (this (run E ops s)) = hinglish_keywords (this s)
  /\ _audio_initialized (this (run E ops s)) = _audio_initialized (this s)
  /\ detect_hinglish E (this (run E ops s)) text = detect_hinglish E (this s) text.
Proof.
  destruct (run_settings E ops s) as (H1 & H2 & _).
  split; [exact H1|]. split; [exact H2|].
  apply detect_hinglish_keywords, H1.
Qed.

Section EntryPoints.

Variable E : Env.

Lemma or_default_self c : or_default (Some c) c = c.
Proof. destruct c; reflexivity. Qed.

Lemma speak_supported text c slow s :
  c <> EmptyString \/ c = current_language (this s) ->
  supported s c = true ->
  fst (speak E text (Some c) (Some slow) s) = Ok (speak_synthesis_ok E text c slow s)
  /\ exists evs, log (snd (speak E text (Some c) (Some slow) s))
                 = evs ++ Called (gTTS_init text c slow) :: log s.
Proof.
  intros Hc Hs. rewrite speak_eq.
  assert (Hl : or_default (Some c) (current_language (this s)) = c).
  { destruct Hc as [Hc| ->]; [apply or_default_nonempty, Hc|apply or_default_self]. }
  rewrite Hl. cbn [if_not_None]. split.
  - rewrite _generate_and_play_result, Hs. reflexivity.
  - apply _generate_and_play_request, Hs.
Qed.

End EntryPoints.

(** X13. [speak_hinglish] is never turned down at the language check
    when "hi" is in the table and the session language is valid: it asks
    the synthesis service for Hindi, or, when detection is on and finds
    nothing, for the session language; its answer is whether the
    synthesis steps went through. *)
Theorem speak_hinglish_reaches_the_service
        (E : Env) (text : str) (slow auto_detect : bool) (s : State) :
  supported s "hi" = true -> valid_default s ->
  exists lang evs,
    (lang = "hi"%string \/ (auto_detect = true /\ lang = current_language (this s)))
    /\ fst (speak_hinglish E text slow auto_detect s)
       = Ok (speak_synthesis_ok E text lang slow s)
    /\ log (snd (speak_hinglish E text slow auto_detect s))
       = evs ++ Called (gTTS_init text lang slow) :: log s.
Proof.
  intros Hhi Hdef.
  destruct (speak_hinglish_eq E text slow auto_detect s) as (l & Hauto & Hforce & ->).
  assert (Hl : l = "hi"%string \/ (auto_detect = true /\ l = current_language (this s))).
  { destruct auto_detect.
    - specialize (Hauto eq_refl).
      destruct (auto_detect_language_range E (this s) text) as [H|H];
        rewrite H in Hauto; injection Hauto as <-; auto.
    - left. apply Hforce. reflexivity. }
  assert (Hs : supported s l = true).
  { destruct Hl as [->|[_ ->]]; assumption. }
  assert (Hc : l <> EmptyString \/ l = current_language (this s)).
  { destruct Hl as [->|[_ ->]]; [left; discriminate|right; reflexivity]. }
  destruct (speak_supported E text l slow s Hc Hs) as (Hres & evs & Hlog).
  exists l, evs. auto.
Qed.

Lemma speak_hinglish_reaches_the_service_witness :
  supported fresh "hi" = true /\ valid_default fresh /\
  exists lang evs,
    (lang = "hi"%string \/ (true = true /\ lang = current_language (this fresh)))
    /\ fst (speak_hinglish calm hello false true fresh)
       = Ok (speak_synthesis_ok calm hello lang false fresh)
    /\ log (snd (speak_hinglish calm hello false true fresh))
       = evs ++ Called (gTTS_init hello lang false) :: log fresh.
Proof.
  assert (H1 : supported fresh "hi" = true) by reflexivity.
  assert (H2 : valid_default fresh) by reflexivity.
  split; [exact H1|]. split; [exact H2|].
  exact (speak_hinglish_reaches_the_service calm hello false true fresh H1 H2).
Defined.

(** X14. The convenience methods ([speak_hindi], [speak_tamil], ...,
    [speak_chinese]) pass codes of the built-in table: at any point of a
    session of an instance built by [__init__] they get past the language
    check and ask the synthesis service for their own language. *)
Theorem convenience_methods_use_supported_codes
        (E : Env) (s0 : State) (ops : list Op) (c : string)
        (m : str -> bool -> M bool) (text : str) (slow : bool) :
  In (c, m) (convenience_methods E) ->
  let s := run E ops (snd (__init__ E s0)) in
  supported s c = true
  /\ fst (m text slow s) = Ok (speak_synthesis_ok E text c slow s)
  /\ exists evs, log (snd (m text slow s))
                 = evs ++ Called (gTTS_init text c slow) :: log s.
Proof.
  intros Hin s.
  destruct (__init___table E s0) as [Hwf Htab].
  destruct (run_table E ops _ Hwf) as [_ Hrun]. fold s in Hrun.
  assert (Hsup : forall k, is_Some (languages_table !! k) -> supported s k = true).
  { intros k Hk. unfold supported. rewrite Hrun, Htab.
    apply bool_decide_eq_true_2, Hk. }
  assert (Hs : supported s c = true /\ c <> EmptyString
               /\ m text slow = speak E text (Some c) (Some slow)).
  { cbn in Hin.
    repeat (destruct Hin as [Hin|Hin];
            [injection Hin as <- <-;
             split; [apply Hsup; vm_compute; eauto|split; [discriminate|reflexivity]]|]).
    destruct Hin. }
  destruct Hs as (Hs & Hc & Hm). split; [exact Hs|]. rewrite Hm.
  apply speak_supported; auto.
Qed.

Lemma convenience_methods_use_supported_codes_witness :
  In ("ta"%string, speak_tamil calm) (convenience_methods calm)
  /\ supported (run calm [op_set_language "fr"] (snd (__init__ calm blank))) "ta" = true.
Proof.
  assert (H : In ("ta"%string, speak_tamil calm) (convenience_methods calm))
    by (right; left; reflexivity).
  split; [exact H|].
  exact (proj1 (convenience_methods_use_supported_codes calm blank
                  [op_set_language "fr"%string] "ta" (speak_tamil calm) hello false H)).
Defined.

Section SaveAndPlay.

Variable E : Env.

Lemma synthesis_only_quiet evs c :
  Forall synthesis_only evs -> is_audio_call c -> ~ In (Called c) evs.
Proof.
  intros Hall Hc Hin. apply (Forall_In _ _ _ Hall) in Hin.
  destruct c; cbn in Hin, Hc; contradiction.
Qed.

Lemma speak_and_save_shape text filename language slow s :
  exists r fs evs1 evs2,
    speak_and_save E text filename language slow s
    = (Ok r, with_world fs ((evs2 ++ evs1) ++ log s) s)
    /\ grows_by filename (files s) fs
    /\ Forall synthesis_only evs1
    /\ (r = true -> filename ∈ fs)
    /\ (r = false \/ _audio_initialized (this s) = false -> evs2 = [])
    /\ (r = true -> _audio_initialized (this s) = true ->
        _play_audio_file E filename (with_world fs (evs1 ++ log s) s)
        = (Ok tt, with_world fs (evs2 ++ evs1 ++ log s) s)).
Proof.
  rewrite speak_and_save_eq.
  set (lang := or_default language (current_language (this s))).
  set (speed := if_not_None slow (slow_speech (this s))).
  destruct (_generate_audio_grows E text lang speed filename s)
    as (r0 & fs & evs1 & Hr & Hgrow & Hevs).
  destruct (_generate_audio_never_raises E text lang speed filename s) as [r Hok].
  pose proof (_generate_audio_file E text lang speed filename s) as Hfile.
  rewrite Hr in Hok, Hfile. cbn in Hok, Hfile. subst r0.
  unfold bind at 1. rewrite Hr. destruct r.
  - destruct (_audio_initialized (this s)) eqn:Hflag.
    + destruct (_play_audio_file_spec E filename (with_world fs (evs1 ++ log s) s))
        as (evs2 & Hp & _).
      exists true, fs, evs1, evs2. unfold bind. rewrite Hp. cbn.
      rewrite <- app_assoc.
      split; [reflexivity|]. split; [exact Hgrow|]. split; [exact Hevs|].
      split; [auto|]. split; [intros [H|H]; discriminate H|].
      intros _ _. reflexivity.
    + exists true, fs, evs1, []. cbn.
      split; [reflexivity|]. split; [exact Hgrow|]. split; [exact Hevs|].
      split; [auto|]. split; [reflexivity|]. discriminate.
  - exists false, fs, evs1, []. cbn.
    split; [reflexivity|]. split; [exact Hgrow|]. split; [exact Hevs|].
    split; [discriminate|]. split; [reflexivity|]. discriminate.
Qed.

End SaveAndPlay.

(** X15. [speak_and_save] never raises; the only file it can create is
    the one it was given, and when it answers [True] that file exists.
    It plays exactly what it saved: with an initialised mixer a
    successful save is followed by loading that very file, and no other
    file is ever given to the audio device; after a failed save, or
    without a mixer, the audio device is not called at all. *)
Theorem speak_and_save_plays_what_it_saved
        (E : Env) (text : str) (filename : string) (language : option string)
        (slow : option bool) (s : State) :
  exists r fs evs,
    speak_and_save E text filename language slow s
    = (Ok r, with_world fs (evs ++ log s) s)
    /\ files s ⊆ fs /\ fs ⊆ {[filename]} ∪ files s
    /\ (r = true -> filename ∈ fs)
    /\ (r = true -> _audio_initialized (this s) = true ->
        In (Called (music_load filename)) evs)
    /\ (r = false \/ _audio_initialized (this s) = false ->
        forall c, is_audio_call c -> ~ In (Called c) evs)
    /\ (forall g, In (Called (music_load g)) evs \/ In (Called (Sound_init g)) evs ->
                  g = filename).
Proof.
  destruct (speak_and_save_shape E text filename language slow s)
    as (r & fs & evs1 & evs2 & Hr & [Hsub Hsup] & Hev1 & Hfile & Hnone & Hplay).
  exists r, fs, (evs2 ++ evs1). split; [exact Hr|].
  split; [exact Hsub|]. split; [exact Hsup|]. split; [exact Hfile|].
  assert (Hsynth : forall c, is_audio_call c -> ~ In (Called c) evs1)
    by (intros c Hc; apply synthesis_only_quiet; assumption).
  assert (Hplayed : r = true -> _audio_initialized (this s) = true ->
                    In (Called (music_load filename)) evs2
                    /\ forall g, In (Called (music_load g)) evs2
                                 \/ In (Called (Sound_init g)) evs2 -> g = filename).
  { intros Htrue Hflag. specialize (Hplay Htrue Hflag).
    exact (playback_shape_facts E filename (with_world fs (evs1 ++ log s) s) evs2
             Hflag (Hfile Htrue) Hplay). }
  split; [|split].
  - intros Htrue Hflag. apply in_or_app. left. apply (Hplayed Htrue Hflag).
  - intros Hoff c Hc Hin. rewrite (Hnone Hoff) in Hin. exact (Hsynth c Hc Hin).
  - intros g Hg.
    assert (Hg2 : In (Called (music_load g)) evs2 \/ In (Called (Sound_init g)) evs2).
    { destruct Hg as [Hg|Hg]; apply in_app_or in Hg as [Hg|Hg]; auto;
        exfalso; eapply Hsynth; try exact Hg; exact I. }
    destruct r; [|rewrite (Hnone (or_introl eq_refl)) in Hg2; destruct Hg2 as [[]|[]]].
    destruct (_audio_initialized (this s)) eqn:Hflag;
      [|rewrite (Hnone (or_intror eq_refl)) in Hg2; destruct Hg2 as [[]|[]]].
    apply (Hplayed eq_refl eq_refl), Hg2.
Qed.

(** * The listing of the languages *)

Section Listing.

Lemma item_le_cases x y :
  item_le x y
  <-> (fst x = fst y /\ String.le (snd x) (snd y))
      \/ (fst x <> fst y /\ String.le (fst x) (fst y)).
Proof.
  unfold item_le, item_leb, String.le.
  destruct (decide (fst x = fst y)); tauto.
Qed.

Lemma item_le_total : Total item_le.
Proof.
  intros x y. rewrite !item_le_cases.
  destruct (decide (fst x = fst y)) as [Heq|Hne].
  - destruct (total String.le (snd x) (snd y)); auto.
  - destruct (total String.le (fst x) (fst y)); auto.
Qed.

Lemma item_le_trans : Transitive item_le.
Proof.
  intros x y z. rewrite !item_le_cases.
  intros [[Hxy H1]|[Hxy H1]] [[Hyz H2]|[Hyz H2]].
  - left. split; [congruence|]. exact (transitivity H1 H2).
  - right. rewrite Hxy. auto.
  - right. rewrite <- Hyz. auto.
  - right. split; [|exact (transitivity H1 H2)].
    intros Hxz. apply Hxy. rewrite <- Hxz in H2.
    apply (anti_symm String.le); assumption.
Qed.

Lemma le_ne_ltb (a b : string) : String.le a b -> a <> b -> String.ltb a b = true.
Proof.
  unfold String.le, String.leb, String.ltb. intros Hle Hne.
  destruct (String.compare a b) eqn:Hc; [|reflexivity|destruct Hle].
  exfalso. apply Hne, String.compare_eq_iff, Hc.
Qed.

(** Sorted tuples with distinct codes are in strictly ascending order of
    the codes. *)
Lemma ascending_codes (items : list (string * string)) :
  StronglySorted item_le items -> NoDup (map fst items) ->
  StronglySorted (fun x y => String.ltb (fst x) (fst y) = true) items.
Proof.
  induction 1 as [|x items Hs IH Hall]; intros Hnd; [constructor|].
  cbn [map] in Hnd. apply NoDup_cons in Hnd as [Hx Hnd].
  constructor; [apply IH, Hnd|].
  rewrite List.Forall_forall in Hall |- *. intros y Hy.
  assert (Hne : fst x <> fst y).
  { intros Heq. apply Hx. rewrite Heq. apply list_elem_of_In, in_map, Hy. }
  specialize (Hall y Hy). apply item_le_cases in Hall as [[Heq _]|[_ Hle]];
    [contradiction|].
  apply le_ne_ltb; assumption.
Qed.

End Listing.

(** X16. [list_languages] prints its three header lines, then one line
    [code<TAB>name] for every entry of the table, each entry once, in
    strictly ascending order of the codes, then an empty line. *)
Theorem list_languages_lists_every_language_once (s : State) :
  exists items,
    list_languages s = header ++ map line items ++ [EmptyString]
    /\ (forall code name, In (code, name) items <-> table s !! code = Some name)
    /\ NoDup (map fst items)
    /\ length items = size (table s)
    /\ StronglySorted (fun x y => String.ltb (fst x) (fst y) = true) items.
Proof.
  exists (sorted_items (table s)). split; [reflexivity|].
  pose proof (merge_sort_Permutation item_le (map_to_list (table s))) as Hperm.
  fold (sorted_items (table s)) in Hperm.
  assert (Hnd : NoDup (map fst (sorted_items (table s)))).
  { rewrite Hperm. apply NoDup_fst_map_to_list. }
  split; [|split; [exact Hnd|split]].
  - intros code name. rewrite <- elem_of_map_to_list, <- Hperm.
    symmetry. apply list_elem_of_In.
  - rewrite Hperm. apply length_map_to_list.
  - apply ascending_codes; [|exact Hnd].
    apply (@StronglySorted_merge_sort _ item_le _ item_le_trans item_le_total).
Qed.

Section PlayThenDelete.

Variable E : Env.

Lemma no_exn_None o : no_exn o = true -> o = None.
Proof. destruct o; [discriminate|reflexivity]. Qed.

Lemma _generate_and_play_order text language slow s :
  let f := tmp_name E (Called (gTTS_init text language slow) :: log s) in
  supported s language = true ->
  speak_synthesis_ok E text language slow s = true ->
  _audio_initialized (this s) = true ->
  exists evsC evsP,
    log (snd (_generate_and_play E text language slow s))
    = evsC ++ evsP ++ Called (gTTS_save text language slow f) :: TempCreated f
           :: Called mkstemp :: Called (gTTS_init text language slow) :: log s
    /\ In (Called (music_load f)) evsP
    /\ Forall is_playback evsP
    /\ (forall g, In (Called (music_load g)) evsP \/ In (Called (Sound_init g)) evsP ->
                  g = f)
    /\ (evsC = [Called (unlink f)]
        \/ exists e, evsC = [Printed (msg_cleanup_failed e); Called (unlink f)]).
Proof.
  intros f Hs Hok Hflag. rewrite supported_table in Hs.
  unfold speak_synthesis_ok in Hok. fold f in Hok.
  apply andb_true_iff in Hok as [Hok H3]. apply andb_true_iff in Hok as [H1 H2].
  apply no_exn_None in H1, H2, H3.
  unfold _generate_and_play, try_except, try_finally, bind, get_self, dict_contains,
    call, tts_save, NamedTemporaryFile, path_exists, os_unlink, print, ret.
  cbn -[_play_audio_file]. rewrite Hs. cbn -[_play_audio_file].
  rewrite H1. cbn -[_play_audio_file]. rewrite H2. cbn -[_play_audio_file].
  fold f. rewrite H3. cbn -[_play_audio_file]. rewrite Hflag.
  match goal with
  | |- context [_play_audio_file E f ?st] => set (s3 := st)
  end.
  destruct (_play_audio_file_spec E f s3) as (evsP & Hp & HevP).
  assert (Hf3 : f ∈ files s3) by (apply elem_of_union_l, elem_of_singleton; reflexivity).
  destruct (playback_shape_facts E f s3 evsP Hflag Hf3 Hp) as [Hload Honly].
  rewrite Hp. cbn -[_play_audio_file].
  rewrite !(bool_decide_eq_true_2 (f ∈ {[f]} ∪ ({[f]} ∪ files s)) Hf3).
  destruct (raises E _ (unlink f)) as [e|]; cbn.
  - exists [Printed (msg_cleanup_failed e); Called (unlink f)], evsP.
    split; [reflexivity|]. eauto 10.
  - exists [Called (unlink f)], evsP. split; [reflexivity|]. auto 10.
Qed.

End PlayThenDelete.

(** X17. With a supported language, a synthesis that goes through and an
    initialised mixer, [speak] works in this order: it asks the
    synthesis service for the text, makes a temporary file, has the
    audio written to it, plays that very file (and gives no other file
    to the audio device), and only then deletes it. *)
Theorem speak_plays_then_deletes
        (E : Env) (text : str) (language : option string) (slow : option bool)
        (s : State) :
  let lang := or_default language (current_language (this s)) in
  let speed := if_not_None slow (slow_speech (this s)) in
  let f := tmp_name E (Called (gTTS_init text lang speed) :: log s) in
  supported s lang = true ->
  speak_synthesis_ok E text lang speed s = true ->
  _audio_initialized (this s) = true ->
  exists evsC evsP,
    log (snd (speak E text language slow s))
    = evsC ++ evsP ++ Called (gTTS_save text lang speed f) :: TempCreated f
           :: Called mkstemp :: Called (gTTS_init text lang speed) :: log s
    /\ In (Called (music_load f)) evsP
    /\ Forall is_playback evsP
    /\ (forall g, In (Called (music_load g)) evsP \/ In (Called (Sound_init g)) evsP ->
                  g = f)
    /\ (evsC = [Called (unlink f)]
        \/ exists e, evsC = [Printed (msg_cleanup_failed e); Called (unlink f)]).
Proof.
  intros lang speed f Hs Hok Hflag. rewrite speak_eq.
  exact (_generate_and_play_order E text lang speed s Hs Hok Hflag).
Qed.

Lemma speak_plays_then_deletes_witness :
  supported fresh "en" = true
  /\ speak_synthesis_ok calm hello "en" false fresh = true
  /\ _audio_initialized (this fresh) = true
  /\ exists evsC evsP,
       log (snd (speak calm hello None None fresh))
       = evsC ++ evsP ++ Called (gTTS_save hello "en" false "/tmp/tmp0.mp3")
              :: TempCreated "/tmp/tmp0.mp3" :: Called mkstemp
              :: Called (gTTS_init hello "en" false) :: log fresh
       /\ In (Called (music_load "/tmp/tmp0.mp3")) evsP.
Proof.
  assert (H1 : supported fresh "en" = true) by reflexivity.
  assert (H2 : speak_synthesis_ok calm hello "en" false fresh = true) by reflexivity.
  assert (H3 : _audio_initialized (this fresh) = true) by reflexivity.
  split; [exact H1|]. split; [exact H2|]. split; [exact H3|].
  destruct (speak_plays_then_deletes calm hello None None fresh H1 H2 H3)
    as (evsC & evsP & Hlog & Hload & _).
  exists evsC, evsP. split; [exact Hlog|exact Hload].
Defined.
